(** * tap-shopify: the replication engine of [tap_shopify/streams/base.py]

    A shallow embedding of the bookmark protocol, the windowed synchronous
    pager ([Stream.get_objects]), the concurrent pager ([RunAsync]) and the
    retry policy ([shopify_error_handling]), with the properties the
    specification states about them. *)

From Stdlib Require Import ZArith QArith Qround Lia.
From stdpp Require Import gmap strings list sorting.

Local Open Scope Z_scope.

(** ** Data model *)

(** A [datetime] in UTC, counted in microseconds since the epoch.
    [utils.strftime] and [utils.strptime_with_tz] are inverse to each other on
    such values, so a bookmark string is represented by the instant it
    denotes. *)
Definition timestamp := Z.

Definition second : Z := 1000000.
Definition day : Z := 86400 * second.

(** [dt.replace(microsecond=0)] *)
Definition replace_microsecond_0 (t : timestamp) : timestamp := t - t mod second.

(** A row of the remote collection as the REST API serialises it. *)
Record row := Row { row_id : Z; row_updated_at : timestamp }.

(** An SDK object ([shopify.ShopifyResource]): attribute access [obj.id] and
    [obj.to_dict()]. *)
Record resource := Resource { attributes : row }.

Definition id (o : resource) : Z := row_id (attributes o).
Definition to_dict (o : resource) : row := attributes o.

(** [Context.state['bookmarks'][name]]: the dictionary of one stream. The code
    of this module stores two keys in it, [replication_key] (the cursor, a
    formatted datetime) and ['since_id'] (an integer); a key that is absent
    is [None]. *)
Record bookmarks := Bookmarks {
  updated_at : option timestamp;
  since_id : option Z
}.

(** [Context.state['bookmarks']], keyed by stream name. *)
Abbreviation state := (gmap string bookmarks).

(** [Context.config] with the clock reading [singer.utils.now()].
    [date_window_size] is the [datetime.timedelta(days=...)] the code builds
    from the configured number of days, in microseconds. *)
Record config := Config {
  start_date : timestamp;
  end_date : option timestamp;
  date_window_size : Z;
  results_per_page : Z;
  use_async : bool;
  now : timestamp
}.

Definition DATE_WINDOW_SIZE : Z := 1 * day.
Definition RESULTS_PER_PAGE : Z := 250.
Definition MAX_RETRIES : nat := 5.
Definition ASYNC_AVAILABLE_STREAMS : list string :=
  ["orders"; "products"; "customers"; "abandoned_checkouts"]%string.

(** Exceptions a sync can end with. *)
Inductive exn :=
| ServerError (code : option Z)
| ClientError (code : option Z) (retry_after : option Q)
| FormatError
| JSONDecodeError
| ConnectionError (code : option Z)
| TypeError
| AttributeError
| IndexError
| KeyError
| ZeroDivisionError
| RecursionError
| OutOfOrderIdsError.

Inductive result (A : Type) :=
| Ok (a : A)
| Raise (e : exn).
Arguments Ok {A} a.
Arguments Raise {A} e.

(** ** BookmarkStore *)

(** [singer.get_bookmark(state, name, key)] for the two keys. *)
Definition get_bookmark_raw (name : string) (σ : state) : option timestamp :=
  σ !! name ≫= updated_at.

(** [Stream.get_bookmark]: the stored cursor, or [start_date]. *)
Definition get_bookmark (cfg : config) (name : string) (σ : state) : timestamp :=
  default (start_date cfg) (get_bookmark_raw name σ).

(** [Stream.get_since_id] *)
Definition get_since_id (name : string) (σ : state) : option Z :=
  σ !! name ≫= since_id.

(** [x or 1] on an optional integer: [None] and [0] are falsy. *)
Definition or_1 (x : option Z) : Z :=
  match x with
  | Some n => if n =? 0 then 1 else n
  | None => 1
  end.

(** The key and value of one [update_bookmark] call. *)
Inductive bookmark_write :=
| replication_key (t : timestamp)
| since_id_key (n : Z).

Definition set_key (w : bookmark_write) (b : bookmarks) : bookmarks :=
  match w with
  | replication_key t => Bookmarks (Some t) (since_id b)
  | since_id_key n => Bookmarks (updated_at b) (Some n)
  end.

(** [singer.write_bookmark]: creates the stream's dictionary when absent. *)
Definition write_bookmark (name : string) (w : bookmark_write) (σ : state) : state :=
  <[name := set_key w (default (Bookmarks None None) (σ !! name))]> σ.

(** [Context.state.get('bookmarks', {}).get(name, {}).pop('since_id', None)] *)
Definition pop_since_id (name : string) (σ : state) : state :=
  alter (λ b, Bookmarks (updated_at b) None) name σ.

(** What a run has done so far: the state, the records yielded to the caller,
    and the states written by [singer.write_state], oldest first. *)
Record run (A : Type) := Run {
  ctx_state : state;
  yielded : list A;
  written : list state
}.
Arguments Run {A} ctx_state yielded written.
Arguments ctx_state {A} r.
Arguments yielded {A} r.
Arguments written {A} r.

(** [Stream.update_bookmark]: write the key, then emit the whole state. *)
Definition update_bookmark {A} (name : string) (w : bookmark_write) (r : run A) : run A :=
  let σ := write_bookmark name w (ctx_state r) in
  Run σ (yielded r) (written r ++ [σ]).

Definition yield_all {A} (objs : list A) (r : run A) : run A :=
  Run (ctx_state r) (yielded r ++ objs) (written r).

Definition with_state {A} (σ : state) (r : run A) : run A :=
  Run σ (yielded r) (written r).

(** ** WindowedCursorPager: [Stream.get_objects] *)

(** The [query_params] of one [call_api] ([status] is the constant ["any"]). *)
Record query := Query {
  q_since_id : Z;
  q_updated_at_min : timestamp;
  q_updated_at_max : timestamp;
  q_limit : Z
}.

(** [stop_time] of [get_objects], [updated_at_max] of [get_objects_async]. *)
Definition stop_time (cfg : config) : timestamp :=
  match end_date cfg with
  | Some e => e
  | None => replace_microsecond_0 (now cfg)
  end.

(** [max([o.id for o in objects])] on a non-empty list. *)
Definition max_id (objects : list resource) : Z :=
  match objects with
  | [] => 0
  | o :: os => foldr (λ x m, Z.max (id x) m) (id o) os
  end.

(** The [for obj in objects] loop: the objects yielded before the first one
    whose id is below [since_id], and whether there is such a one. *)
Fixpoint check_since_id (sid : Z) (objects : list resource) : list resource * bool :=
  match objects with
  | [] => ([], true)
  | o :: os =>
      if id o <? sid then ([], false)
      else let '(ys, ok) := check_since_id sid os in (o :: ys, ok)
  end.

(** Where the generator stands: at the test of the outer [while], at the top
    of the inner [while True], returned, or ended by an exception. *)
Inductive control :=
| AdvanceWindow (updated_at_min : timestamp)
| PageWithinWindow (updated_at_min updated_at_max : timestamp) (sid : Z)
| Returned
| Raised (e : exn).

Section WindowedCursorPager.
(** The remote collaborator behind [call_api]: its own state [R] and the
    outcome of one (retry-wrapped) call. *)
Context {R : Type}.
Variable call_api : query → R → result (list resource) * R.
Variable cfg : config.
Variable name : string.

Definition advance_window (updated_at_min : timestamp) (r : run resource) : control :=
  if updated_at_min <? stop_time cfg then
    let sid := or_1 (get_since_id name (ctx_state r)) in
    let updated_at_max := updated_at_min + date_window_size cfg in
    let updated_at_max :=
      if updated_at_max >? stop_time cfg then stop_time cfg else updated_at_max in
    PageWithinWindow updated_at_min updated_at_max sid
  else Returned.

(** What follows the [for] loop once a page passed it. *)
Definition after_page (updated_at_min updated_at_max : timestamp)
    (objects : list resource) (r : run resource) : control * run resource :=
  if Z.of_nat (length objects) <? results_per_page cfg then
    let r := with_state (pop_since_id name (ctx_state r)) r in
    let r := update_bookmark name (replication_key updated_at_max) r in
    (AdvanceWindow updated_at_max, r)
  else
    match last objects with
    | None => (Raised IndexError, r)
    | Some o =>
        if negb (id o =? max_id objects) then (Raised OutOfOrderIdsError, r)
        else
          let r := update_bookmark name (since_id_key (id o)) r in
          (PageWithinWindow updated_at_min updated_at_max (id o), r)
    end.

(** One pass through the body of the inner loop. *)
Definition page_within_window (updated_at_min updated_at_max : timestamp) (sid : Z)
    (rem : R) (r : run resource) : control * R * run resource :=
  let q := Query sid updated_at_min updated_at_max (results_per_page cfg) in
  match call_api q rem with
  | (Raise e, rem) => (Raised e, rem, r)
  | (Ok objects, rem) =>
      let '(ys, ok) := check_since_id sid objects in
      let r := yield_all ys r in
      if ok then
        let '(c, r) := after_page updated_at_min updated_at_max objects r in (c, rem, r)
      else (Raised OutOfOrderIdsError, rem, r)
  end.

Definition step (c : control) (rem : R) (r : run resource) : control * R * run resource :=
  match c with
  | AdvanceWindow updated_at_min => (advance_window updated_at_min r, rem, r)
  | PageWithinWindow updated_at_min updated_at_max sid =>
      page_within_window updated_at_min updated_at_max sid rem r
  | Returned | Raised _ => (c, rem, r)
  end.

Fixpoint steps (fuel : nat) (c : control) (rem : R) (r : run resource) : control * R * run resource :=
  match fuel with
  | O => (c, rem, r)
  | S fuel =>
      let '(c, rem, r) := step c rem r in steps fuel c rem r
  end.

Definition finished (c : control) : bool :=
  match c with
  | Returned | Raised _ => true
  | _ => false
  end.

(** [get_objects], consumed to its end by the caller, within [fuel] passes
    through the loop heads. *)
Definition get_objects (fuel : nat) (rem : R) (σ : state) : control * R * run resource :=
  steps fuel (AdvanceWindow (get_bookmark cfg name σ)) rem (Run σ [] []).
End WindowedCursorPager.

(** ** RetryPolicy: [shopify_error_handling] *)

(** [range(lo, hi)] *)
Definition range (lo hi : Z) : list Z := seqZ lo (hi - lo).

(** [getattr(exc, 'code', None)]: the pyactiveresource connection errors
    carry the HTTP status of their response; the format errors and the JSON
    decoding error have no such attribute. *)
Definition code (exc : exn) : option Z :=
  match exc with
  | ServerError c | ClientError c _ | ConnectionError c => c
  | _ => None
  end.

(** Truth value of an optional integer. *)
Definition truthy (c : option Z) : bool :=
  match c with
  | Some n => negb (n =? 0)
  | None => false
  end.

Definition is_not_status_code_fn (status_code : list Z) (exc : exn) : bool :=
  if truthy (code exc) && negb (bool_decide (default 0 (code exc) ∈ status_code))
  then true
  else (* Retry other errors up to the max *) false.

(** What a wrapped call does besides calling its target. [Sleep s j] is
    [time.sleep] of the wait value [s]; with [j] the value went through
    backoff's full jitter (a random duration between 0 and [s]), without it
    the sleep lasts [s] seconds. *)
Inductive event :=
| Sleep (seconds : Z) (jitter : bool)
| leaky_bucket_handler (wait : Z)
| retry_handler (tries : nat) (max : nat).

(** One [next] of a wait generator. *)
Inductive wait_step (W : Type) :=
| Yield (seconds : Z) (w : W)
| StopIteration
| WaitRaise (e : exn).
Arguments Yield {W} seconds w.
Arguments StopIteration {W}.
Arguments WaitRaise {W} e.

(** A wait generator: its state before the first [next], and [next] run
    inside the [except] block that handles [exc]. *)
Record wait_generator := WaitGen {
  wait_state : Type;
  wait_init : wait_state;
  wait_next : wait_state → exn → wait_step wait_state
}.

(** [backoff.expo] with its defaults: 1, 2, 4, 8, ... *)
Definition expo : wait_generator :=
  WaitGen nat O (λ n _, Yield (2 ^ Z.of_nat n) (S n)).

(** [retry_after_wait_gen]: the body runs at the first [next], reads the
    response of the exception being handled and yields once; a generator
    that has yielded its only value is exhausted. [float(None)] is a
    [TypeError]; an exception without [response] an [AttributeError]. *)
Definition retry_after_wait_gen : wait_generator :=
  WaitGen bool false (λ started exc,
    if started then StopIteration
    else match exc with
         | ClientError _ (Some sleep_time) => Yield (Qfloor sleep_time) true
         | ClientError _ None => WaitRaise TypeError
         | _ => WaitRaise AttributeError
         end).

Section on_exception.
Context {R A : Type}.
Variable wait_gen : wait_generator.
Variable exception : exn → bool.
Variable giveup : exn → bool.
Variable on_backoff : nat → Z → event.
Variable max_tries : option nat.
Variable jitter : bool.
Variable target : R → list event → option (result A * R * list event).

(** Modelled from the spec: the loop of the decorator
    [backoff.on_exception], a library that is not under src/ (§4.1 and the
    library's documentation). Call the target; on an exception of the
    listed classes give up when [giveup] holds or when the number of tries
    has reached [max_tries], and when the wait generator is exhausted;
    otherwise take the next wait value, call the [on_backoff] handler,
    sleep and try again. The wait generator is created once for each call
    of the wrapper. [None] when [fuel] tries were not enough. *)
Fixpoint retry (fuel : nat) (tries : nat) (wait : wait_state wait_gen)
    (rem : R) (log : list event) : option (result A * R * list event) :=
  match fuel with
  | O => None
  | S fuel =>
      let tries := S tries in
      match target rem log with
      | None => None
      | Some (Ok ret, rem, log) => Some (Ok ret, rem, log)
      | Some (Raise e, rem, log) =>
          if negb (exception e) then Some (Raise e, rem, log)
          else if giveup e || bool_decide (max_tries = Some tries)
          then Some (Raise e, rem, log)
          else match wait_next wait_gen wait e with
               | StopIteration => Some (Raise e, rem, log)
               | WaitRaise e' => Some (Raise e', rem, log)
               | Yield seconds wait =>
                   retry fuel tries wait rem
                     (log ++ [on_backoff tries seconds; Sleep seconds jitter])
               end
      end
  end.

Definition on_exception (fuel : nat) (rem : R) (log : list event) :=
  retry fuel O (wait_init wait_gen) rem log.
End on_exception.

Definition is_server_or_decode_error (e : exn) : bool :=
  match e with
  | ServerError _ | FormatError | JSONDecodeError => true
  | _ => false
  end.

Definition is_client_error (e : exn) : bool :=
  match e with
  | ClientError _ _ => true
  | _ => false
  end.

Section shopify_error_handling.
Context {R A : Type}.
Variable fnc : R → result A * R.

Definition wrapper (rem : R) (log : list event) : option (result A * R * list event) :=
  let '(x, rem) := fnc rem in Some (x, rem, log).

(** The inner decorator: 429 handling. *)
Definition leaky_bucket (fuel : nat) :=
  on_exception retry_after_wait_gen is_client_error
    (is_not_status_code_fn [429])
    (λ _ wait, leaky_bucket_handler wait)
    None false wrapper fuel.

(** The two decorators, outermost last applied. *)
Definition shopify_error_handling (fuel : nat) :=
  on_exception expo is_server_or_decode_error
    (is_not_status_code_fn (range 500 599))
    (λ tries _, retry_handler tries MAX_RETRIES)
    (Some MAX_RETRIES) true (leaky_bucket fuel) fuel.
End shopify_error_handling.

(** A remote that answers from a script, one outcome for each request, and
    records the requests it received. *)
Record scripted (P A : Type) := Scripted {
  script : list (result A);
  requests : list P
}.
Arguments Scripted {P A} script requests.
Arguments script {P A} s.
Arguments requests {P A} s.

(** [replication_object.find] against a scripted remote. A
    script that ran out answers with a connection error. *)
Definition find {P A} (q : P) (rem : scripted P A) : result A * scripted P A :=
  match script rem with
  | x :: rest => (x, Scripted rest (requests rem ++ [q]))
  | [] => (Raise (ConnectionError None), Scripted [] (requests rem ++ [q]))
  end.

(** [Stream.call_api] *)
Definition call_api {P A} (fuel : nat) (query_params : P)
    (rem : scripted P A) (log : list event) :=
  shopify_error_handling (find query_params) fuel rem log.

(** ** ConcurrentPager: [RunAsync] *)

(** The query string of an asynchronous request: [self.params], with the
    [page] key on a page job. The datetimes are formatted with
    ['%Y-%m-%dT%H:%M:%S'], which drops the microseconds. *)
Record async_params := AsyncParams {
  p_updated_at_min : timestamp;
  p_updated_at_max : timestamp;
  p_limit : Z;
  p_page : option Z
}.

(** A request: the count endpoint or the collection endpoint. *)
Record request := Request {
  count_endpoint : bool;
  req_params : async_params
}.

(** A decoded JSON body: the keys this module reads or writes, ['count'],
    [result_key] and ['page']. *)
Record body := Body {
  b_count : option Z;
  b_results : option (list row);
  b_page : option Z
}.

(** An HTTP response: status, the [Retry-After] header as [float] reads it,
    and the body. *)
Record response := Response {
  status : Z;
  retry_after : option Q;
  json : body
}.

Inductive async_event :=
| GET (params : async_params) (retry_attempt : nat)
| asyncio_sleep (seconds : Z).

Record RunAsync := MkRunAsync {
  retry_limit : nat;
  ra_results_per_page : Z;
  params : async_params;
  bucket_size : nat
}.

(** [RunAsync.__init__]; [plan_name] is what [shopify.Shop.current()]
    reports. *)
Definition RunAsync_init (retry_limit : nat) (results_per_page : Z)
    (updated_at_min updated_at_max : timestamp) (plan_name : string) : RunAsync :=
  MkRunAsync retry_limit results_per_page
    (AsyncParams updated_at_min updated_at_max results_per_page None)
    (if String.eqb plan_name "shopify_plus" then 80%nat else 40%nat).

Definition prepend {A} (evs : list async_event)
    (x : option (result A * list async_event)) : option (result A * list async_event) :=
  match x with
  | Some (r, log) => Some (r, evs ++ log)
  | None => None
  end.

(** [RunAsync._get_async], against the responses the remote gives to the
    successive issues of this request. [None]: the responses so far all led
    to a retry.

    A retry is the recursive [return await self._get_async(...)], made
    inside the two [async with] blocks of the caller, so every retry adds
    to the interpreter's stack until the request is answered.
    [recursion_limit] is the number of such nested calls the interpreter
    allows (what [sys.getrecursionlimit()] leaves once the frames of a call
    and of its callers are counted); the call after that one raises
    [RecursionError], which nothing here catches. The callers start at
    [retry_attempt = 0], and [retry_attempt] is the depth of the nesting. *)
Fixpoint _get_async (recursion_limit : nat) (responses : list response)
    (params : async_params) (retry_attempt : nat)
    : option (result body * list async_event) :=
  match responses with
  | [] => None
  | response :: responses =>
      if status response =? 429 then
        match retry_after response with
        | None => Some (Raise TypeError, [GET params retry_attempt])
        | Some h =>
            let sleep_time_str := Qfloor h in
            prepend [GET params retry_attempt; asyncio_sleep sleep_time_str]
              (if (recursion_limit <=? retry_attempt)%nat
               then Some (Raise RecursionError, [])
               else _get_async recursion_limit responses params (S retry_attempt))
        end
      else if bool_decide (status response ∈ range 500 599) then
        prepend [GET params retry_attempt]
          (if (recursion_limit <=? retry_attempt)%nat
           then Some (Raise RecursionError, [])
           else _get_async recursion_limit responses params (S retry_attempt))
      else
        let resp := json response in
        let resp :=
          match p_page params with
          | Some p => Body (b_count resp) (b_results resp) (Some p)
          | None => resp
          end in
        Some (Ok resp, [GET params retry_attempt])
  end.

(** [math.ceil(a / b)] on integers (the quotient is exact here; the code
    goes through a float). *)
Definition ceil_div (a b : Z) : Z := - ((- a) / b).

(** [singer.utils.chunk(array, num)] for a positive [num]: the slices
    [array[i:i+num]] for [i] in [range(0, len(array), num)]. *)
Fixpoint chunk_from {A} (fuel : nat) (array : list A) (num : nat) : list (list A) :=
  match fuel with
  | O => []
  | S fuel =>
      match array with
      | [] => []
      | _ => take num array :: chunk_from fuel (drop num array) num
      end
  end.

Definition chunk {A} (array : list A) (num : nat) : list (list A) :=
  chunk_from (length array) array num.

(** The loop over [asyncio.as_completed(futures)] on the futures that
    complete, in their order of completion. *)
Fixpoint gather (completed : list (result body)) (resp_dict : gmap Z (list row))
    : result (gmap Z (list row)) :=
  match completed with
  | [] => Ok resp_dict
  | Raise e :: _ => Raise e
  | Ok result :: completed =>
      match b_page result with
      | None => Raise KeyError
      | Some page => gather completed (<[page := default [] (b_results result)]> resp_dict)
      end
  end.

Definition key_le (x y : Z * list row) : Prop := x.1 ≤ y.1.
#[global] Instance key_le_dec x y : Decision (key_le x y) := Z_le_dec _ _.

(** [sorted(d.items())]: the keys of a dictionary are distinct, so the
    tuples are ordered by their keys. *)
Definition sorted_items (d : gmap Z (list row)) : list (Z * list row) :=
  merge_sort key_le (map_to_list d).

Section RunAsync.
(** The nested calls of [_get_async] the interpreter allows. *)
Variable recursion_limit : nat.
(** The remote: the responses it gives to the successive issues of each
    request. *)
Variable http : request → list response.
(** [asyncio.as_completed]: the order in which the requests of a chunk
    complete. *)
Variable as_completed : list async_params → list async_params.
Variable self : RunAsync.

Definition _request_count : option (result Z) :=
  match _get_async recursion_limit (http (Request true (params self))) (params self) 0 with
  | None => None
  | Some (Raise e, _) => Some (Raise e)
  | Some (Ok resp, _) =>
      match b_count resp with
      | Some c => Some (Ok c)
      | None => Some (Raise KeyError)
      end
  end.

Definition _request (job : async_params) : option (result body) :=
  fst <$> _get_async recursion_limit (http (Request false job)) job 0.

(** One chunk: all its requests are issued; the loop body runs on those
    that complete, and waits for ever when one does not. *)
Definition run_chunk (chunk_of_jobs : list async_params)
    : option (result (gmap Z (list row))) :=
  let outcomes := _request <$> as_completed chunk_of_jobs in
  match gather (omap (λ x, x) outcomes) ∅ with
  | Raise e => Some (Raise e)
  | Ok resp_dict =>
      if forallb (λ x, bool_decide (is_Some x)) outcomes then Some (Ok resp_dict) else None
  end.

(** The loop [for chunk_of_jobs in chunked_jobs], with the chunks whose
    requests have been sent, in the order they were sent: a chunk is sent
    only once the chunk before it has been gathered. *)
Fixpoint run_chunks (chunked_jobs : list (list async_params))
    (all_jobs_results_dict : gmap Z (list row))
    : list (list async_params) * option (result (gmap Z (list row))) :=
  match chunked_jobs with
  | [] => ([], Some (Ok all_jobs_results_dict))
  | chunk_of_jobs :: chunked_jobs =>
      match run_chunk chunk_of_jobs with
      | None => ([chunk_of_jobs], None)
      | Some (Raise e) => ([chunk_of_jobs], Some (Raise e))
      | Some (Ok resp_dict) =>
          let '(sent, outcome) :=
            run_chunks chunked_jobs (resp_dict ∪ all_jobs_results_dict) in
          (chunk_of_jobs :: sent, outcome)
      end
  end.

Definition with_page (p : Z) : async_params :=
  AsyncParams (p_updated_at_min (params self)) (p_updated_at_max (params self))
    (p_limit (params self)) (Some p).

Definition num_pages (result_set_size : Z) : Z :=
  ceil_div result_set_size (ra_results_per_page self).

Definition jobs (result_set_size : Z) : list async_params :=
  with_page <$> seqZ 1 (num_pages result_set_size).

Definition ordered_results (all_jobs_results_dict : gmap Z (list row)) : list row :=
  flat_map (λ kv, if (0 <? length kv.2)%nat then kv.2 else [])
    (sorted_items all_jobs_results_dict).

(** [RunAsync._runner], with the chunks of page requests it has sent. *)
Definition _runner_traced : list (list async_params) * option (result (list row)) :=
  match _request_count with
  | None => ([], None)
  | Some (Raise e) => ([], Some (Raise e))
  | Some (Ok result_set_size) =>
      if ra_results_per_page self =? 0 then ([], Some (Raise ZeroDivisionError))
      else
        let chunked_jobs := chunk (jobs result_set_size) (bucket_size self) in
        match run_chunks chunked_jobs ∅ with
        | (sent, None) => (sent, None)
        | (sent, Some (Raise e)) => (sent, Some (Raise e))
        | (sent, Some (Ok all_jobs_results_dict)) =>
            (sent, Some (Ok (ordered_results all_jobs_results_dict)))
        end
  end.

(** What [_runner] returns or raises; [None] while a request waits. *)
Definition _runner : option (result (list row)) := _runner_traced.2.

(** The chunks of page requests [_runner] has sent, in order. *)
Definition dispatched : list (list async_params) := _runner_traced.1.
End RunAsync.

(** ** StreamDriver *)

Section Stream.
Variable cfg : config.
Variable name : string.

Section get_objects_async.
Variable recursion_limit : nat.
Variable http : request → list response.
Variable as_completed : list async_params → list async_params.
Variable plan_name : string.

(** [Stream.get_objects_async]: [None] while the remote keeps a request
    waiting. *)
Definition get_objects_async (σ : state) : option (control * run row) :=
  let updated_at_min := get_bookmark cfg name σ in
  let updated_at_max := stop_time cfg in
  let self := RunAsync_init MAX_RETRIES (results_per_page cfg)
                (replace_microsecond_0 updated_at_min)
                (replace_microsecond_0 updated_at_max) plan_name in
  match _runner recursion_limit http as_completed self with
  | None => None
  | Some (Raise e) => Some (Raised e, Run σ [] [])
  | Some (Ok objects) =>
      let r := yield_all objects (Run σ [] []) in
      Some (Returned, update_bookmark name (replication_key updated_at_max) r)
  end.
End get_objects_async.

(** [Stream.sync], consumed to its end: the asynchronous strategy against
    [http], or the windowed one against [call_api]. [None] when the
    generator has not ended (within [fuel] passes of the windowed loops). *)
Definition sync {R} (call_api : query → R → result (list resource) * R) (rem : R)
    (recursion_limit : nat) (http : request → list response)
    (as_completed : list async_params → list async_params) (plan_name : string)
    (fuel : nat) (σ : state) : option (control * run row) :=
  if use_async cfg && bool_decide (name ∈ ASYNC_AVAILABLE_STREAMS) then
    get_objects_async recursion_limit http as_completed plan_name σ
  else
    let '(c, _, r) := get_objects call_api cfg name fuel rem σ in
    if finished c
    then Some (c, Run (ctx_state r) (to_dict <$> yielded r) (written r))
    else None.
End Stream.

(** ** Definitions used to state the properties *)

(** Concrete instants and rows used in the scenarios. *)
Definition jan (d : Z) : timestamp := (1672531200 + (d - 1) * 86400) * second.

Definition obj (n : Z) (t : timestamp) : resource := Resource (Row n t).

Definition cfg_2023 (bound : option timestamp) (page_size : Z) : config :=
  Config (jan 1) bound DATE_WINDOW_SIZE page_size false (jan 20).

Definition hour : Z := 3600 * second.

(** A sequence of cursor values that never decreases, starting from [prev]. *)
Fixpoint nondecreasing (prev : timestamp) (cursors : list timestamp) : Prop :=
  match cursors with
  | [] => True
  | c :: cursors => prev ≤ c ∧ nondecreasing c cursors
  end.

(** The cursors of the states written so far. *)
Definition cursors (cfg : config) (name : string) (r : run resource) : list timestamp :=
  get_bookmark cfg name <$> written r.

(** What holds whenever the generator stands at a loop head: the local
    [updated_at_min] is the cursor of the state, the window ends at the
    smaller of [updated_at_min] plus the window size and [stop_time], and
    the cursors written so far never decreased from [start]. *)
Definition pager_inv (cfg : config) (name : string) (start : timestamp)
    (c : control) (r : run resource) : Prop :=
  nondecreasing start (cursors cfg name r)
  ∧ List.last (cursors cfg name r) start = get_bookmark cfg name (ctx_state r)
  ∧ match c with
    | AdvanceWindow updated_at_min =>
        get_bookmark cfg name (ctx_state r) = updated_at_min
    | PageWithinWindow updated_at_min updated_at_max _ =>
        get_bookmark cfg name (ctx_state r) = updated_at_min
        ∧ updated_at_min < stop_time cfg
        ∧ updated_at_max = Z.min (updated_at_min + date_window_size cfg) (stop_time cfg)
    | Returned | Raised _ => True
    end.

(** A remote that answers every request at once with status 200: an empty
    collection. *)
Definition empty_shop (req : request) : list response :=
  [Response 200 None
     (if count_endpoint req then Body (Some 0) None None else Body None (Some []) None)].

(** The exceptions the outer decorator tries again. *)
Definition retried (e : exn) : Prop :=
  is_server_or_decode_error e = true
  ∧ is_not_status_code_fn (range 500 599) e = false.

(** What the outer decorator logs and sleeps for the tries [tries + 1] to
    [tries + n]: waits of 1, 2, 4, ... seconds before jitter. *)
Definition backoff_events (tries n : nat) : list event :=
  flat_map (λ i, [retry_handler (S i) MAX_RETRIES; Sleep (2 ^ Z.of_nat i) true])
    (seq tries n).

(** The loop of the outer decorator around the inner one, for the request
    [q] against a scripted remote. *)
Definition outer_loop {P A : Type} (q : P) (inner_fuel : nat) :=
  retry (R:=scripted P A) (A:=A) expo is_server_or_decode_error
    (is_not_status_code_fn (range 500 599))
    (λ tries _, retry_handler tries MAX_RETRIES)
    (Some MAX_RETRIES) true (leaky_bucket (find q) (S inner_fuel)).

(** The log of the issues of a request that led to a retry: a GET each, and
    after a 429 a sleep of the floor of [Retry-After]. *)
Fixpoint retry_log (params : async_params) (retry_attempt : nat)
    (retried : list response) : list async_event :=
  match retried with
  | [] => []
  | r :: retried =>
      (if status r =? 429
       then [GET params retry_attempt; asyncio_sleep (Qfloor (default 0%Q (retry_after r)))]
       else [GET params retry_attempt])
      ++ retry_log params (S retry_attempt) retried
  end.

(** The responses [_get_async] answers by issuing the request again. *)
Definition reissued (r : response) : Prop :=
  (status r = 429 ∧ is_Some (retry_after r)) ∨ 500 ≤ status r < 599.

Global Instance key_le_total : Total key_le.
Proof. intros x y. unfold key_le. lia. Qed.
Global Instance key_le_trans : Transitive key_le.
Proof. intros x y z. unfold key_le. lia. Qed.

Definition page_of (job : async_params) : Z := default 0 (p_page job).

(** A page job whose request completes with the records [pages p]. *)
Definition completes (recursion_limit : nat) (http : request → list response)
    (pages : Z → list row) (job : async_params) : Prop :=
  ∃ p b, p_page job = Some p ∧ _request recursion_limit http job = Some (Ok b)
         ∧ default [] (b_results b) = pages p.

(** A shop with three rows, served two to a page; its first page answers
    503 once. *)
Definition small_shop (req : request) : list response :=
  if count_endpoint req then [Response 200 None (Body (Some 3) None None)]
  else if bool_decide (p_page (req_params req) = Some 1) then
    [Response 503 None (Body None None None);
     Response 200 None (Body None (Some [Row 11 (jan 1); Row 12 (jan 1)]) None)]
  else [Response 200 None (Body None (Some [Row 13 (jan 1)]) None)].

(** A shop whose count endpoint reports 1001 records; every page request
    is answered at once. *)
Definition large_shop (req : request) : list response :=
  if count_endpoint req then [Response 200 None (Body (Some 1001) None None)]
  else [Response 200 None (Body None (Some []) None)].

(** The collection is kept in ascending id, without repetition. *)
Definition id_lt (a b : row) : Prop := row_id a < row_id b.

(** The rows of a collection last updated in the window from [lo] to [hi],
    [hi] excluded. *)
Definition in_window (lo hi : timestamp) (rows : list row) : list row :=
  filter (λ r, lo ≤ row_updated_at r < hi) rows.

(** Modelled from the spec: the remote fetch contract (§6, §3, §4.2, §4.3),
    which the repository only consumes. The collection is kept in ascending
    id; a windowed request answers with the rows of the window whose id
    comes after [since_id], the first [limit] of them, as SDK objects. *)
Definition remote_find (rows : list row) (q : query) (rem : unit)
    : result (list resource) * unit :=
  (Ok (Resource <$>
         take (Z.to_nat (q_limit q))
           (filter (λ r, q_since_id q < row_id r)
              (in_window (q_updated_at_min q) (q_updated_at_max q) rows))), rem).

(** Modelled from the spec: the same contract for the asynchronous requests
    (§4.3, §6): the count endpoint answers with the number of rows of the
    window, the collection endpoint with the page [page] of [limit] rows, in
    ascending id; every request is answered at once with status 200. *)
Definition remote_http (rows : list row) (req : request) : list response :=
  let ps := req_params req in
  let matching := in_window (p_updated_at_min ps) (p_updated_at_max ps) rows in
  if count_endpoint req
  then [Response 200 None (Body (Some (Z.of_nat (length matching))) None None)]
  else
    let page := default 1 (p_page ps) in
    [Response 200 None
       (Body None
          (Some (take (Z.to_nat (p_limit ps))
                   (drop (Z.to_nat ((page - 1) * p_limit ps)) matching)))
          None)].

(** The configuration of a stream with the asynchronous strategy switched on
    or off. *)
Definition with_use_async (b : bool) (cfg : config) : config :=
  Config (start_date cfg) (end_date cfg) (date_window_size cfg)
    (results_per_page cfg) b (now cfg).

(** [Stream.sync] of one strategy against the collection [rows]. *)
Definition sync_collection (async : bool) (cfg : config) (name : string)
    (rows : list row) (recursion_limit : nat)
    (as_completed : list async_params → list async_params)
    (fuel : nat) (σ : state) : option (control * run row) :=
  sync (with_use_async async cfg) name (remote_find rows) tt
    recursion_limit (remote_http rows) as_completed "basic" fuel σ.

(** What holds at the loop heads of a windowed run that began at the
    cursor [start]: a window never ends after [stop_time]; past the first
    window the cursor is stored and no [since_id] is left; a run that
    returned has stored [stop_time]. *)
Definition window_inv (cfg : config) (name : string) (start : timestamp)
    (c : control) (r : run resource) : Prop :=
  match c with
  | AdvanceWindow updated_at_min =>
      updated_at_min = start
      ∨ (updated_at_min ≤ stop_time cfg
         ∧ get_bookmark_raw name (ctx_state r) = Some updated_at_min
         ∧ get_since_id name (ctx_state r) = None)
  | PageWithinWindow _ updated_at_max _ => updated_at_max ≤ stop_time cfg
  | Returned =>
      get_bookmark_raw name (ctx_state r) = Some (stop_time cfg)
      ∧ get_since_id name (ctx_state r) = None
  | Raised _ => True
  end.

(** A request that stays between the cursor [start] and [stop_time] and asks
    for the configured page size. *)
Definition within_bounds (cfg : config) (start : timestamp) (q : query) : Prop :=
  start ≤ q_updated_at_min q
  ∧ q_updated_at_min q < stop_time cfg
  ∧ q_updated_at_min q ≤ q_updated_at_max q
  ∧ q_updated_at_max q ≤ stop_time cfg
  ∧ q_limit q = results_per_page cfg.

(** The loop heads a windowed run can stand at so that all its requests so
    far were within bounds. *)
Definition bounds_inv (cfg : config) (start : timestamp)
    (c : control) (rem : scripted query (list resource)) : Prop :=
  Forall (within_bounds cfg start) (requests rem)
  ∧ match c with
    | AdvanceWindow updated_at_min => start ≤ updated_at_min
    | PageWithinWindow updated_at_min updated_at_max _ =>
        start ≤ updated_at_min ∧ updated_at_min < stop_time cfg
        ∧ updated_at_min ≤ updated_at_max ∧ updated_at_max ≤ stop_time cfg
    | Returned | Raised _ => True
    end.

(** A remote whose every page is empty. *)
Definition always_empty (q : query) (rem : unit) : result (list resource) * unit :=
  (Ok [], rem).

(** * Properties *)

(** ** The [for] loop over a page *)

Lemma check_since_id_ok sid objects :
  Forall (λ o, sid ≤ id o) objects → check_since_id sid objects = (objects, true).
Proof.
  induction 1 as [|o os Ho _ IH]; simpl; [done|].
  destruct (Z.ltb_spec (id o) sid); [lia|]. by rewrite IH.
Qed.

Lemma check_since_id_bad sid objects :
  Exists (λ o, id o < sid) objects →
  ∃ ys, check_since_id sid objects = (ys, false) ∧
        ys `prefix_of` objects ∧ Forall (λ o, sid ≤ id o) ys.
Proof.
  induction objects as [|o os IH]; intros Hex.
  - by apply Exists_nil in Hex.
  - simpl. destruct (Z.ltb_spec (id o) sid) as [Hlt|Hge].
    + exists []. split_and!; [done|apply prefix_nil|constructor].
    + apply Exists_cons in Hex as [?|Hex]; [lia|].
      destruct (IH Hex) as (ys & -> & Hpre & Hall).
      exists (o :: ys). split_and!; [done|by apply prefix_cons|by constructor].
Qed.

(** [max_id] is an upper bound of the ids of the page and is one of them. *)
Lemma max_id_spec objects :
  objects ≠ [] →
  Forall (λ o, id o ≤ max_id objects) objects ∧ ∃ o, o ∈ objects ∧ id o = max_id objects.
Proof.
  destruct objects as [|o os]; [done|intros _]. unfold max_id.
  induction os as [|x xs IH]; simpl.
  - split; [repeat constructor; lia|]. exists o. split; [|done].
    by left.
  - destruct IH as [IH1 (w & Hin & Hmax)].
    apply Forall_cons in IH1 as [Ho IH1]. split.
    + repeat apply Forall_cons_2; [lia..|].
      eapply Forall_impl; [exact IH1|]. simpl. intros; lia.
    + destruct (Z.max_spec (id x) (foldr (λ x m, Z.max (id x) m) (id o) xs))
        as [[_ Heq]|[_ Heq]]; rewrite Heq.
      * exists w. split; [|done].
        apply elem_of_cons in Hin as [->|Hin]; [by left|by do 2 right].
      * exists x. split; [|done]. right; by left.
Qed.

Section WindowedCursorPagerFacts.
Context {R : Type}.
Variable call_api : query → R → result (list resource) * R.
Variable cfg : config.
Variable name : string.

Lemma steps_finished n c rem r :
  finished c = true → steps call_api cfg name n c rem r = (c, rem, r).
Proof. intros Hc. induction n as [|n IH]; [done|]. by destruct c. Qed.

Lemma steps_add n m c rem r :
  steps call_api cfg name (n + m) c rem r =
  let '(c', rem', r') := steps call_api cfg name n c rem r in
  steps call_api cfg name m c' rem' r'.
Proof.
  revert c rem r. induction n as [|n IH]; intros c rem r; [done|].
  simpl. destruct (step call_api cfg name c rem r) as [[c1 rem1] r1]. apply IH.
Qed.

(** The window the pager opens at [updated_at_min]. *)
Lemma advance_window_spec updated_at_min r :
  advance_window cfg name updated_at_min r =
  if decide (updated_at_min < stop_time cfg)
  then PageWithinWindow updated_at_min
         (Z.min (updated_at_min + date_window_size cfg) (stop_time cfg))
         (or_1 (get_since_id name (ctx_state r)))
  else Returned.
Proof.
  unfold advance_window. destruct (Z.ltb_spec updated_at_min (stop_time cfg));
    case_decide; try lia; [|done].
  f_equal. destruct (Z.gtb_spec (updated_at_min + date_window_size cfg) (stop_time cfg)); lia.
Qed.

Lemma after_page_short updated_at_min updated_at_max objects r :
  Z.of_nat (length objects) < results_per_page cfg →
  after_page cfg name updated_at_min updated_at_max objects r =
  (AdvanceWindow updated_at_max,
   update_bookmark name (replication_key updated_at_max)
     (with_state (pop_since_id name (ctx_state r)) r)).
Proof.
  intros Hlt. unfold after_page.
  by destruct (Z.ltb_spec (Z.of_nat (length objects)) (results_per_page cfg)); [|lia].
Qed.
End WindowedCursorPagerFacts.

(** ** Bookmark lookups after the writes of the pager *)

Lemma get_since_id_commit name t σ :
  get_since_id name (write_bookmark name (replication_key t) (pop_since_id name σ)) = None.
Proof.
  unfold get_since_id, write_bookmark, pop_since_id.
  rewrite lookup_insert_eq, lookup_alter_eq. simpl.
  by destruct (σ !! name).
Qed.

Lemma get_bookmark_raw_commit name t σ :
  get_bookmark_raw name (write_bookmark name (replication_key t) σ) = Some t.
Proof. unfold get_bookmark_raw, write_bookmark. by rewrite lookup_insert_eq. Qed.

Lemma get_since_id_write name n σ :
  get_since_id name (write_bookmark name (since_id_key n) σ) = Some n.
Proof. unfold get_since_id, write_bookmark. by rewrite lookup_insert_eq. Qed.

Lemma get_bookmark_raw_write_since_id name n σ :
  get_bookmark_raw name (write_bookmark name (since_id_key n) σ) = get_bookmark_raw name σ.
Proof.
  unfold get_bookmark_raw, write_bookmark. rewrite lookup_insert_eq. simpl.
  by destruct (σ !! name).
Qed.

Lemma get_bookmark_raw_pop name σ :
  get_bookmark_raw name (pop_since_id name σ) = get_bookmark_raw name σ.
Proof.
  unfold get_bookmark_raw, pop_since_id. rewrite lookup_alter_eq.
  by destruct (σ !! name).
Qed.

(** ** The ordering checks of the windowed pager *)

(** C3. In the windowed synchronous pager, on a fetched page: a record whose
    id is below the [since_id] of the fetch ends the generator with
    [OutOfOrderIdsError], with only the records before it yielded and
    nothing written to the state; a full page whose last id is not the
    maximum id of the page ends it with [OutOfOrderIdsError] as well, and no
    bookmark is written; otherwise, on a full page, [since_id] becomes the
    last id and is written to the state before the next request, which
    carries it. The error is final: the remote was called once, and no step
    follows. *)
Theorem out_of_order_ids_fatal {R} (call_api : query → R → result (list resource) * R)
    cfg name updated_at_min updated_at_max sid rem rem' r objects :
  call_api (Query sid updated_at_min updated_at_max (results_per_page cfg)) rem
    = (Ok objects, rem') →
  (Exists (λ o, id o < sid) objects →
     ∃ ys, page_within_window call_api cfg name updated_at_min updated_at_max sid rem r
             = (Raised OutOfOrderIdsError, rem', Run (ctx_state r) (yielded r ++ ys) (written r))
           ∧ ys `prefix_of` objects ∧ Forall (λ o, sid ≤ id o) ys)
  ∧ (Z.of_nat (length objects) = results_per_page cfg →
     ∀ o, last objects = Some o →
       (id o ≠ max_id objects →
          ∃ ys, page_within_window call_api cfg name updated_at_min updated_at_max sid rem r
                  = (Raised OutOfOrderIdsError, rem',
                     Run (ctx_state r) (yielded r ++ ys) (written r))
                ∧ ys `prefix_of` objects)
       ∧ (Forall (λ o, sid ≤ id o) objects → id o = max_id objects →
          ∃ σ, σ = write_bookmark name (since_id_key (id o)) (ctx_state r)
             ∧ get_since_id name σ = Some (id o)
             ∧ page_within_window call_api cfg name updated_at_min updated_at_max sid rem r
               = (PageWithinWindow updated_at_min updated_at_max (id o), rem',
                  Run σ (yielded r ++ objects) (written r ++ [σ]))
             ∧ ∀ e rem'' r',
                 call_api (Query (id o) updated_at_min updated_at_max
                             (results_per_page cfg)) rem' = (Raise e, rem'') →
                 step call_api cfg name
                   (PageWithinWindow updated_at_min updated_at_max (id o)) rem' r'
                 = (Raised e, rem'', r')))
  ∧ (∀ n rem r, steps call_api cfg name n (Raised OutOfOrderIdsError) rem r
                 = (Raised OutOfOrderIdsError, rem, r)).
Proof.
  intros Hcall.
  assert (Exists (λ o, id o < sid) objects →
          ∃ ys, page_within_window call_api cfg name updated_at_min updated_at_max sid rem r
                  = (Raised OutOfOrderIdsError, rem',
                     Run (ctx_state r) (yielded r ++ ys) (written r))
                ∧ ys `prefix_of` objects ∧ Forall (λ o, sid ≤ id o) ys) as Hbelow.
  { intros Hex. destruct (check_since_id_bad _ _ Hex) as (ys & Hchk & Hpre & Hall).
    exists ys. split; [|done]. unfold page_within_window. by rewrite Hcall, Hchk. }
  assert (∀ o, Forall (λ o, sid ≤ id o) objects →
            Z.of_nat (length objects) = results_per_page cfg → last objects = Some o →
            page_within_window call_api cfg name updated_at_min updated_at_max sid rem r
            = if id o =? max_id objects
              then (PageWithinWindow updated_at_min updated_at_max (id o), rem',
                    update_bookmark name (since_id_key (id o)) (yield_all objects r))
              else (Raised OutOfOrderIdsError, rem', yield_all objects r)) as Hfull.
  { intros o Hall Hlen Hlast. unfold page_within_window.
    rewrite Hcall, (check_since_id_ok _ _ Hall). unfold after_page.
    rewrite Hlen, Z.ltb_irrefl, Hlast. by destruct (id o =? max_id objects). }
  split_and!; [done| |].
  - intros Hlen o Hlast. split.
    + intros Hmax. destruct (decide (Forall (λ o, sid ≤ id o) objects)) as [Hall|Hnot].
      * exists objects. split; [|done]. rewrite (Hfull o) by done.
        by destruct (Z.eqb_spec (id o) (max_id objects)).
      * apply not_Forall_Exists in Hnot; [|apply _].
        destruct Hbelow as (ys & Hrun & Hpre & _); [|by exists ys].
        eapply Exists_impl; [exact Hnot|]. simpl. intros; lia.
    + intros Hall Hmax. eexists. split; [done|]. split; [apply get_since_id_write|].
      split.
      * rewrite (Hfull o) by done. by rewrite Hmax, Z.eqb_refl.
      * intros e rem'' r' Hnext. simpl. unfold page_within_window. by rewrite Hnext.
  - intros n rem0 r0. by apply steps_finished.
Qed.

Lemma out_of_order_ids_fatal_witness :
  ∃ ys, page_within_window find (cfg_2023 None 2) "orders" (jan 1) (jan 2) 1
          (Scripted [Ok [obj 7 (jan 1); obj 5 (jan 1)]] []) (Run ∅ [] [])
        = (Raised OutOfOrderIdsError,
           Scripted [] [Query 1 (jan 1) (jan 2) 2],
           Run ∅ ys [])
      ∧ ys `prefix_of` [obj 7 (jan 1); obj 5 (jan 1)].
Proof.
  pose proof (out_of_order_ids_fatal find (cfg_2023 None 2) "orders" (jan 1) (jan 2) 1
                (Scripted [Ok [obj 7 (jan 1); obj 5 (jan 1)]] []) _ (Run ∅ [] []) _ eq_refl)
    as (_ & H & _).
  destruct (H eq_refl (obj 5 (jan 1)) eq_refl) as [Hne _].
  destruct Hne as (ys & Hrun & Hpre); [vm_compute; lia|].
  exists ys. split; [exact Hrun|exact Hpre].
Defined.

(** ** Committing a window *)

(** A page shorter than the page limit that holds an id below the
    [since_id] of its fetch is not committed: resuming at [since_id] 5 with a
    page limit of 2, the page [{id: 3}] ends the run with
    [OutOfOrderIdsError]; the cursor is not written and [since_id] stays. *)
Lemma short_page_below_since_id_not_committed :
  let σ : state := {["orders"%string := Bookmarks None (Some 5)]} in
  let objects := [obj 3 (jan 1)] in
  Z.of_nat (length objects) < results_per_page (cfg_2023 (Some (jan 2)) 2)
  ∧ ∀ n, get_objects find (cfg_2023 (Some (jan 2)) 2) "orders" (2 + n)
           (Scripted [Ok objects] []) σ
         = (Raised OutOfOrderIdsError,
            Scripted [] [Query 5 (jan 1) (jan 2) 2],
            Run σ [] []).
Proof.
  split; [done|]. intros n. unfold get_objects. rewrite steps_add.
  change (steps _ _ _ 2 _ _ _) with
    (Raised OutOfOrderIdsError,
     Scripted (P:=query) (A:=list resource) [] [Query 5 (jan 1) (jan 2) 2],
     Run (A:=resource) {["orders"%string := Bookmarks None (Some 5)]} [] []).
  by apply steps_finished.
Qed.

(** C2 (amended). In the windowed synchronous pager, a fetched page whose
    ids are all at least the [since_id] of its fetch and that holds fewer
    records than the page limit commits the window: its records are yielded,
    the [since_id] field is removed, the cursor [updated_at_max] is written,
    and the pager goes on to the window that starts at [updated_at_max]. For
    the window from 2023-01-01 to 2023-01-02 with a page limit of 2 and the
    pages [{id:1},{id:2}] and [{id:3}], the run yields the ids 1, 2, 3, writes
    the cursor 2023-01-02 and leaves no [since_id]. *)
Theorem short_page_commits_window {R} (call_api : query → R → result (list resource) * R)
    cfg name updated_at_min updated_at_max sid rem rem' r objects :
  call_api (Query sid updated_at_min updated_at_max (results_per_page cfg)) rem
    = (Ok objects, rem') →
  Forall (λ o, sid ≤ id o) objects →
  Z.of_nat (length objects) < results_per_page cfg →
  (∃ σ, page_within_window call_api cfg name updated_at_min updated_at_max sid rem r
          = (AdvanceWindow updated_at_max, rem',
             Run σ (yielded r ++ objects) (written r ++ [σ]))
        ∧ get_since_id name σ = None
        ∧ get_bookmark_raw name σ = Some updated_at_max
        ∧ (∀ r', ctx_state r' = σ →
             step call_api cfg name (AdvanceWindow updated_at_max) rem' r'
             = (if decide (updated_at_max < stop_time cfg)
                then PageWithinWindow updated_at_max
                       (Z.min (updated_at_max + date_window_size cfg) (stop_time cfg)) 1
                else Returned, rem', r')))
  ∧ (∀ n, ∃ σ,
       get_objects find (cfg_2023 (Some (jan 2)) 2) "orders" (4 + n)
         (Scripted [Ok [obj 1 (jan 1); obj 2 (jan 1)]; Ok [obj 3 (jan 1)]] []) ∅
       = (Returned,
          Scripted [] [Query 1 (jan 1) (jan 2) 2; Query 2 (jan 1) (jan 2) 2],
          Run σ [obj 1 (jan 1); obj 2 (jan 1); obj 3 (jan 1)]
            [ {["orders"%string := Bookmarks None (Some 2)]}; σ ])
       ∧ σ = {["orders"%string := Bookmarks (Some (jan 2)) None]}).
Proof.
  intros Hcall Hall Hlt. split.
  - exists (write_bookmark name (replication_key updated_at_max)
              (pop_since_id name (ctx_state r))).
    split_and!.
    + unfold page_within_window. rewrite Hcall, (check_since_id_ok _ _ Hall).
      simpl. by rewrite after_page_short.
    + apply get_since_id_commit.
    + apply get_bookmark_raw_commit.
    + intros r' Hσ. simpl. rewrite advance_window_spec, Hσ, get_since_id_commit.
      by case_decide.
  - intros n. eexists. split; [|reflexivity].
    unfold get_objects. rewrite steps_add.
    change (steps _ _ _ 4 _ _ _) with
      (Returned,
       Scripted (P:=query) (A:=list resource) []
         [Query 1 (jan 1) (jan 2) 2; Query 2 (jan 1) (jan 2) 2],
       Run (A:=resource) {["orders"%string := Bookmarks (Some (jan 2)) None]}
         [obj 1 (jan 1); obj 2 (jan 1); obj 3 (jan 1)]
         [ {["orders"%string := Bookmarks None (Some 2)]};
           {["orders"%string := Bookmarks (Some (jan 2)) None]} ]).
    by apply steps_finished.
Qed.

Lemma short_page_commits_window_witness :
  ∃ σ, page_within_window find (cfg_2023 (Some (jan 2)) 2) "orders" (jan 1) (jan 2) 2
         (Scripted [Ok [obj 3 (jan 1)]] []) (Run ∅ [obj 1 (jan 1); obj 2 (jan 1)] [])
       = (AdvanceWindow (jan 2), Scripted [] [Query 2 (jan 1) (jan 2) 2],
          Run σ [obj 1 (jan 1); obj 2 (jan 1); obj 3 (jan 1)] [σ])
     ∧ get_since_id "orders" σ = None
     ∧ get_bookmark_raw "orders" σ = Some (jan 2).
Proof.
  assert (Forall (λ o, 2 ≤ id o) [obj 3 (jan 1)]) as Hall
    by (repeat apply Forall_cons_2; [unfold id; simpl; lia..|apply Forall_nil_2]).
  assert (Z.of_nat (length [obj 3 (jan 1)]) < results_per_page (cfg_2023 (Some (jan 2)) 2))
    as Hlt by (simpl; lia).
  destruct (short_page_commits_window find (cfg_2023 (Some (jan 2)) 2) "orders"
              (jan 1) (jan 2) 2 (Scripted [Ok [obj 3 (jan 1)]] []) _
              (Run ∅ [obj 1 (jan 1); obj 2 (jan 1)] []) _ eq_refl Hall Hlt)
    as [(σ & H1 & H2 & H3 & _) _].
  exists σ. split_and!; [exact H1|exact H2|exact H3].
Defined.

(** ** The cursor along a run of the windowed pager *)

Lemma last_nonempty_default {A} (x : A) (l : list A) (d d' : A) :
  List.last (x :: l) d = List.last (x :: l) d'.
Proof.
  revert x. induction l as [|y l IH]; intros x; [done|].
  change (List.last (y :: l) d = List.last (y :: l) d'). apply IH.
Qed.

Lemma nondecreasing_snoc prev cursors c :
  nondecreasing prev cursors → List.last cursors prev ≤ c →
  nondecreasing prev (cursors ++ [c]).
Proof.
  revert prev. induction cursors as [|x xs IH]; intros prev; simpl.
  - intros _ ?. by split.
  - intros [Hle Hxs] Hlast. split; [done|]. apply IH; [done|].
    destruct xs as [|z xs]; [done|].
    by rewrite (last_nonempty_default z xs x prev).
Qed.

Lemma last_snoc_default {A} (l : list A) (x d : A) : List.last (l ++ [x]) d = x.
Proof. apply List.last_last. Qed.

Section CursorInvariant.
Context {R : Type}.
Variable call_api : query → R → result (list resource) * R.
Variable cfg : config.
Variable name : string.
Variable start : timestamp.

Lemma get_bookmark_write_since_id n σ :
  get_bookmark cfg name (write_bookmark name (since_id_key n) σ) = get_bookmark cfg name σ.
Proof. unfold get_bookmark. by rewrite get_bookmark_raw_write_since_id. Qed.

Lemma get_bookmark_commit t σ :
  get_bookmark cfg name (write_bookmark name (replication_key t) σ) = t.
Proof. unfold get_bookmark. by rewrite get_bookmark_raw_commit. Qed.

Lemma get_bookmark_pop σ :
  get_bookmark cfg name (pop_since_id name σ) = get_bookmark cfg name σ.
Proof. unfold get_bookmark. by rewrite get_bookmark_raw_pop. Qed.

Hypothesis window_nonneg : 0 ≤ date_window_size cfg.

Lemma step_inv c rem r :
  pager_inv cfg name start c r →
  pager_inv cfg name start (step call_api cfg name c rem r).1.1 (step call_api cfg name c rem r).2.
Proof.
  intros (Hmono & Hlast & Hc). destruct c as [umin|umin umax sid| |e]; simpl; [|
    |done..].
  - split_and!; [done..|]. rewrite advance_window_spec. by case_decide.
  - destruct Hc as (Hcur & Hlt & Hmax). unfold page_within_window.
    destruct (call_api _ rem) as [[objects|e] rem']; simpl; [|done].
    destruct (check_since_id sid objects) as [ys [|]]; simpl; [|done].
    unfold after_page.
    destruct (Z.ltb_spec (Z.of_nat (length objects)) (results_per_page cfg)); simpl.
    + unfold pager_inv, cursors. simpl. rewrite fmap_app. simpl.
      rewrite last_snoc_default, !get_bookmark_commit. split_and!; [|done..].
      apply nondecreasing_snoc; [done|]. fold (cursors cfg name r). rewrite Hlast, Hcur. lia.
    + destruct (last objects) as [o|]; simpl; [|done].
      destruct (id o =? max_id objects); simpl; [|done].
      unfold pager_inv, cursors. simpl. rewrite fmap_app. simpl.
      rewrite last_snoc_default, !get_bookmark_write_since_id. split_and!; [|done..].
      apply nondecreasing_snoc; [done|]. fold (cursors cfg name r). rewrite Hlast. lia.
Qed.

Lemma steps_inv n c rem r :
  pager_inv cfg name start c r →
  pager_inv cfg name start (steps call_api cfg name n c rem r).1.1 (steps call_api cfg name n c rem r).2.
Proof.
  revert c rem r. induction n as [|n IH]; intros c rem r Hinv; [done|].
  simpl. pose proof (step_inv c rem r Hinv) as Hstep.
  destruct (step call_api cfg name c rem r) as [[c1 rem1] r1]. by apply IH.
Qed.
End CursorInvariant.

(** On the windowed path the cursor written to the state never decreases,
    whatever the remote answers and however far the run gets, and every
    window starts at the cursor and ends at the smaller of its start plus
    the window size and [stop_time]. *)
Lemma get_objects_cursor_monotone {R} (call_api : query → R → result (list resource) * R)
    cfg name fuel rem σ :
  0 ≤ date_window_size cfg →
  pager_inv cfg name (get_bookmark cfg name σ)
    (get_objects call_api cfg name fuel rem σ).1.1
    (get_objects call_api cfg name fuel rem σ).2.
Proof.
  intros Hw. unfold get_objects. apply steps_inv; [done|].
  by split_and!.
Qed.

(** The outer loop ends exactly when [updated_at_min] has reached
    [stop_time]. *)
Lemma advance_window_returns {R} (call_api : query → R → result (list resource) * R)
    cfg name updated_at_min rem r :
  (step call_api cfg name (AdvanceWindow updated_at_min) rem r).1.1 = Returned
  ↔ stop_time cfg ≤ updated_at_min.
Proof.
  simpl. rewrite advance_window_spec. case_decide; split; (done || lia).
Qed.

(** ** The start of a window *)

(** C6. The windowed pager does not truncate [updated_at_min]: with the
    cursor at 2023-01-01T00:00:00.500000 the first window starts at that very
    instant, and the request carries it, while the cursor with its
    microseconds truncated is 2023-01-01T00:00:00. (The end of the window and
    the end of the loop are as stated: [advance_window_spec],
    [advance_window_returns], [get_objects_cursor_monotone].) *)
Theorem updated_at_min_keeps_microseconds :
  let cfg := Config (jan 1 + 500000) (Some (jan 2)) DATE_WINDOW_SIZE 250 false (jan 20) in
  get_bookmark cfg "orders" ∅ = jan 1 + 500000
  ∧ replace_microsecond_0 (get_bookmark cfg "orders" ∅) = jan 1
  ∧ get_objects find cfg "orders" 1 (Scripted [Ok []] []) ∅
    = (PageWithinWindow (jan 1 + 500000) (jan 2) 1, Scripted [Ok []] [], Run ∅ [] [])
  ∧ requests (get_objects find cfg "orders" 2 (Scripted [Ok []] []) ∅).1.2
    = [Query 1 (jan 1 + 500000) (jan 2) 250]
  ∧ jan 1 + 500000 ≠ replace_microsecond_0 (jan 1 + 500000).
Proof. split_and!; [reflexivity..|]. vm_compute. discriminate. Qed.

(** ** The cursor on the asynchronous path *)

(** C1. On the asynchronous path the cursor moves backwards when [end_date]
    lies before the bookmark: from the cursor 2023-01-10 and with [end_date]
    2023-01-05 the run writes the cursor 2023-01-05. The windowed path writes
    nothing there, and its cursor never decreases
    ([get_objects_cursor_monotone]). *)
Theorem async_cursor_moves_backwards (recursion_limit : nat) :
  let σ : state := {["orders"%string := Bookmarks (Some (jan 10)) None]} in
  let cfg_async := Config (jan 1) (Some (jan 5)) DATE_WINDOW_SIZE 250 true (jan 20) in
  let cfg_sync := Config (jan 1) (Some (jan 5)) DATE_WINDOW_SIZE 250 false (jan 20) in
  let σ' : state := {["orders"%string := Bookmarks (Some (jan 5)) None]} in
  get_bookmark cfg_async "orders" σ = jan 10
  ∧ sync cfg_async "orders" find (Scripted [] []) recursion_limit empty_shop
      (λ c, c) "basic" 1 σ
    = Some (Returned, Run σ' [] [σ'])
  ∧ get_bookmark cfg_async "orders" σ' = jan 5
  ∧ jan 5 < jan 10
  ∧ sync cfg_sync "orders" find (Scripted [] []) recursion_limit empty_shop
      (λ c, c) "basic" 1 σ
    = Some (Returned, Run σ [] []).
Proof. split_and!; reflexivity. Qed.

(** ** The give-up predicate *)

Lemma elem_of_range lo hi x : x ∈ range lo hi ↔ lo ≤ x < hi.
Proof. unfold range. rewrite elem_of_seqZ. lia. Qed.

Lemma is_not_status_code_fn_false status_code exc :
  is_not_status_code_fn status_code exc = false
  ↔ truthy (code exc) = false ∨ default 0 (code exc) ∈ status_code.
Proof.
  unfold is_not_status_code_fn.
  destruct (truthy (code exc)); simpl; [|by split; [left|]].
  case_bool_decide; simpl; split; try done; [by right|by intros [?|?]].
Qed.

Lemma giveup_without_code status_code exc :
  truthy (code exc) = false → is_not_status_code_fn status_code exc = false.
Proof. intros H. apply is_not_status_code_fn_false. by left. Qed.

(** The server errors the outer decorator retries are those whose status
    lies in [range(500, 599)], that is from 500 to 598. *)
Lemma giveup_server_error c :
  is_not_status_code_fn (range 500 599) (ServerError (Some c)) = false
  ↔ c = 0 ∨ 500 ≤ c < 599.
Proof.
  rewrite is_not_status_code_fn_false, elem_of_range. simpl.
  destruct (Z.eqb_spec c 0); simpl; split; intros [?|?]; auto; done.
Qed.

(** ** One wrapped call against a scripted remote *)

Section ScriptedCalls.
Context {P A : Type}.
Implicit Types (q : P) (rem : scripted P A) (log : list event) (x : result A).

(** An outcome that is not a client error passes the inner decorator. *)
Lemma leaky_bucket_pass fuel q x rest reqs log :
  match x with Ok _ => True | Raise e => is_client_error e = false end →
  leaky_bucket (find q) (S fuel) (Scripted (x :: rest) reqs) log
  = Some (x, Scripted rest (reqs ++ [q]), log).
Proof.
  intros Hx. unfold leaky_bucket, on_exception. simpl.
  destruct x as [v|e]; [done|]. by rewrite Hx.
Qed.

(** A client error the predicate does not give up on, carrying
    [Retry-After], and followed by a success: one sleep of the floor of
    the header and one more request. *)
Lemma leaky_bucket_retries_once fuel q c h (v : A) rest reqs log :
  is_not_status_code_fn [429] (ClientError c (Some h)) = false →
  leaky_bucket (find q) (S (S fuel))
    (Scripted (Raise (ClientError c (Some h)) :: Ok v :: rest) reqs) log
  = Some (Ok v, Scripted rest ((reqs ++ [q]) ++ [q]),
          log ++ [leaky_bucket_handler (Qfloor h); Sleep (Qfloor h) false]).
Proof.
  intros Hg. unfold leaky_bucket, on_exception. simpl. by rewrite Hg.
Qed.

(** The second of two rate-limit responses in a row is raised: the wait
    generator has yielded its only value. *)
Lemma leaky_bucket_second_429_raised fuel q h h' rest reqs log :
  leaky_bucket (find q) (S (S fuel))
    (Scripted (A:=A) (Raise (ClientError (Some 429) (Some h))
               :: Raise (ClientError (Some 429) (Some h')) :: rest) reqs) log
  = Some (Raise (ClientError (Some 429) (Some h')),
          Scripted rest ((reqs ++ [q]) ++ [q]),
          log ++ [leaky_bucket_handler (Qfloor h); Sleep (Qfloor h) false]).
Proof. reflexivity. Qed.

(** Without [Retry-After] the wait generator raises. *)
Lemma leaky_bucket_no_header fuel q c rest reqs log :
  is_not_status_code_fn [429] (ClientError c None) = false →
  leaky_bucket (find q) (S fuel)
    (Scripted (A:=A) (Raise (ClientError c None) :: rest) reqs) log
  = Some (Raise TypeError, Scripted rest (reqs ++ [q]), log).
Proof.
  intros Hg. unfold leaky_bucket, on_exception. simpl. by rewrite Hg.
Qed.

(** A successful inner call ends the outer loop. *)
Lemma call_api_inner_ok fuel q rem log v rem' log' :
  leaky_bucket (find q) (S fuel) rem log = Some (Ok v, rem', log') →
  call_api (S fuel) q rem log = Some (Ok v, rem', log').
Proof.
  intros H. unfold call_api, shopify_error_handling, on_exception.
  cbn [retry]. by rewrite H.
Qed.

(** An exception outside the classes of the outer decorator is raised. *)
Lemma call_api_inner_raise fuel q rem log e rem' log' :
  leaky_bucket (find q) (S fuel) rem log = Some (Raise e, rem', log') →
  is_server_or_decode_error e = false →
  call_api (S fuel) q rem log = Some (Raise e, rem', log').
Proof.
  intros H He. unfold call_api, shopify_error_handling, on_exception.
  cbn [retry]. by rewrite H, He.
Qed.
End ScriptedCalls.

(** ** Transient errors: the outer decorator *)

Lemma retried_server_error c : 500 ≤ c < 599 → retried (ServerError (Some c)).
Proof. intros Hc. split; [done|]. apply giveup_server_error. by right. Qed.

Lemma retried_decode_error e : e = FormatError ∨ e = JSONDecodeError → retried e.
Proof. by intros [->| ->]. Qed.

Section OuterRetries.
Context {P A : Type}.
Variable q : P.
Variable inner_fuel : nat.

Lemma outer_retries errs : ∀ tries fuel reqs log tail,
  Forall retried errs →
  (tries + length errs < MAX_RETRIES)%nat →
  outer_loop (A:=A) q inner_fuel (length errs + fuel)%nat tries tries
    (Scripted ((Raise <$> errs) ++ tail) reqs) log
  = outer_loop (A:=A) q inner_fuel fuel (tries + length errs)%nat (tries + length errs)%nat
      (Scripted tail (reqs ++ replicate (length errs) q))
      (log ++ backoff_events tries (length errs)).
Proof.
  induction errs as [|e errs IH]; intros tries fuel reqs log tail Hall Hlt.
  - simpl. by rewrite Nat.add_0_r, !app_nil_r.
  - apply Forall_cons in Hall as [[Hcls Hgive] Hall]. simpl in Hlt.
    assert (is_client_error e = false) as Hnc by by destruct e.
    change (length (e :: errs) + fuel)%nat with (S (length errs + fuel)).
    unfold outer_loop. cbn [retry fmap list_fmap app].
    rewrite leaky_bucket_pass by done. rewrite Hcls, Hgive. simpl negb. cbn iota.
    rewrite bool_decide_eq_false_2 by (unfold MAX_RETRIES in *; intros [=]; lia).
    simpl orb. cbn iota. simpl wait_next.
    fold (outer_loop (A:=A) q inner_fuel). cbn iota. rewrite IH by (done || lia).
    simpl length. rewrite <- !Nat.add_succ_comm. f_equal.
    + simpl. by rewrite <- app_assoc.
    + unfold backoff_events. simpl. by rewrite <- app_assoc.
Qed.

(** Fewer than five errors in a row and then a success: the call succeeds,
    having asked once more than there were errors. *)
Lemma outer_recovers errs fuel reqs log v rest :
  Forall retried errs → (length errs < MAX_RETRIES)%nat →
  outer_loop (A:=A) q inner_fuel (length errs + S fuel)%nat O O
    (Scripted ((Raise <$> errs) ++ Ok v :: rest) reqs) log
  = Some (Ok v, Scripted rest (reqs ++ replicate (S (length errs)) q),
          log ++ backoff_events 0 (length errs)).
Proof.
  intros Hall Hlt. rewrite outer_retries by done.
  unfold outer_loop. cbn [retry]. rewrite leaky_bucket_pass by done.
  do 3 f_equal. rewrite <- app_assoc. f_equal.
  change [q] with (replicate 1 q). rewrite <- replicate_add.
  by rewrite Nat.add_1_r.
Qed.

(** The fifth error in a row is raised; the four before it were slept
    on. *)
Lemma outer_exhausted errs e fuel reqs log rest :
  Forall retried errs → retried e → S (length errs) = MAX_RETRIES →
  outer_loop (A:=A) q inner_fuel (length errs + S fuel)%nat O O
    (Scripted ((Raise <$> errs) ++ Raise e :: rest) reqs) log
  = Some (Raise e, Scripted rest (reqs ++ replicate MAX_RETRIES q),
          log ++ backoff_events 0 (length errs)).
Proof.
  intros Hall [Hcls Hgive] Hlen. rewrite outer_retries by (done || lia).
  assert (is_client_error e = false) as Hnc by by destruct e.
  unfold outer_loop. cbn [retry]. rewrite leaky_bucket_pass by done.
  rewrite Hcls, Hgive. simpl negb. cbn iota.
  rewrite bool_decide_eq_true_2 by (simpl; by rewrite Hlen).
  simpl orb. cbn iota.
  do 3 f_equal. rewrite <- app_assoc. f_equal.
  change [q] with (replicate 1 q). rewrite <- replicate_add, <- Hlen.
  by rewrite Nat.add_1_r.
Qed.
End OuterRetries.

(** Five server errors of status 500 to 598, or undecodable bodies, in a
    row end the call with the fifth; four of them followed by a success end
    it with the success. In both cases the waits are 1, 2, 4 and 8 seconds
    before jitter. *)
Lemma call_api_max_tries {P A} (q : P) (v : A) e1 e2 e3 e4 e5 fuel rest :
  Forall retried [e1; e2; e3; e4; e5] → (5 ≤ fuel)%nat →
  call_api fuel q (Scripted ((Raise <$> [e1; e2; e3; e4; e5]) ++ rest) []) []
  = Some (Raise e5, Scripted rest [q; q; q; q; q], backoff_events 0 4)
  ∧ call_api fuel q (Scripted ((Raise <$> [e1; e2; e3; e4]) ++ Ok v :: rest) []) []
  = Some (Ok v, Scripted rest [q; q; q; q; q], backoff_events 0 4).
Proof.
  intros Hall Hfuel.
  destruct fuel as [|f]; [lia|].
  apply Forall_cons in Hall as [H1 Hall]. apply Forall_cons in Hall as [H2 Hall].
  apply Forall_cons in Hall as [H3 Hall]. apply Forall_cons in Hall as [H4 Hall].
  apply Forall_cons in Hall as [H5 _].
  assert (Forall retried [e1; e2; e3; e4]) as H4s
    by (repeat apply Forall_cons_2; try done; apply Forall_nil_2).
  unfold call_api, shopify_error_handling, on_exception.
  set (inner := leaky_bucket (find q) (S f)).
  replace (S f) with (length [e1; e2; e3; e4] + S (f - 4))%nat by (simpl; lia).
  subst inner. split.
  - apply (outer_exhausted q f [e1; e2; e3; e4] e5 (f - 4) [] [] rest); done.
  - apply (outer_recovers q f [e1; e2; e3; e4] (f - 4) [] [] v rest); [done|].
    unfold MAX_RETRIES. simpl. lia.
Qed.

(** C4. A server error of status 599 is not retried: [range(500, 599)] ends
    at 598, so the give-up predicate holds for it and the first response of
    this kind ends the call, after one request and no wait, although a
    success would have followed. (For the statuses 500 to 598 and for
    undecodable bodies a fifth failure in a row ends the call and a fourth
    does not: [call_api_max_tries].) *)
Theorem server_error_599_not_retried :
  is_not_status_code_fn (range 500 599) (ServerError (Some 599)) = true
  ∧ is_not_status_code_fn (range 500 599) (ServerError (Some 598)) = false
  ∧ ∀ fuel, (1 ≤ fuel)%nat →
      call_api fuel "orders"%string
        (Scripted [Raise (ServerError (Some 599)); Ok [obj 1 (jan 1)]] []) []
      = Some (Raise (ServerError (Some 599)),
              Scripted [Ok [obj 1 (jan 1)]] ["orders"%string], []).
Proof.
  split_and!; [reflexivity..|].
  intros [|fuel] Hfuel; [lia|]. reflexivity.
Qed.

(** ** Rate limiting: the inner decorator *)

(** With [Retry-After: 2.5] the call sleeps 2 seconds, the floor of the
    header, not the 2.5 seconds the server asked for. *)
Lemma retry_after_fraction_is_floored :
  call_api 5 "orders"%string
    (Scripted [Raise (ClientError (Some 429) (Some (5 # 2)%Q)); Ok [obj 1 (jan 1)]] []) []
  = Some (Ok [obj 1 (jan 1)], Scripted [] ["orders"%string; "orders"%string],
          [leaky_bucket_handler 2; Sleep 2 false])
  ∧ ¬ (inject_Z 2 == 5 # 2)%Q.
Proof. split; [reflexivity|]. intros H. discriminate H. Qed.

(** A second rate-limit response in a row within one wrapped call is a
    failure of the call: the wait generator yields once. *)
Lemma second_rate_limit_in_a_row_is_raised :
  call_api 5 "orders"%string
    (Scripted [Raise (ClientError (Some 429) (Some 1%Q));
               Raise (ClientError (Some 429) (Some 1%Q)); Ok [obj 1 (jan 1)]] []) []
  = Some (Raise (ClientError (Some 429) (Some 1%Q)),
          Scripted [Ok [obj 1 (jan 1)]] ["orders"%string; "orders"%string],
          [leaky_bucket_handler 1; Sleep 1 false]).
Proof. reflexivity. Qed.

(** C5 (amended). A 429 response to a wrapped call makes it sleep the floor
    of the [Retry-After] value, in whole seconds and without jitter, and then
    issue the same request once more, whose success is the result of the
    call; with [Retry-After: 3] the pause is 3 seconds and there is one
    retry. *)
Theorem rate_limit_sleeps_floor_and_retries {P A} (q : P) (h : Q) (v : A)
    fuel rest reqs log :
  (2 ≤ fuel)%nat →
  call_api fuel q
    (Scripted (Raise (ClientError (Some 429) (Some h)) :: Ok v :: rest) reqs) log
  = Some (Ok v, Scripted rest (reqs ++ [q; q]),
          log ++ [leaky_bucket_handler (Qfloor h); Sleep (Qfloor h) false])
  ∧ call_api fuel q
      (Scripted [Raise (ClientError (Some 429) (Some 3%Q)); Ok v] []) []
    = Some (Ok v, Scripted [] [q; q], [leaky_bucket_handler 3; Sleep 3 false]).
Proof.
  intros Hfuel. destruct fuel as [|[|fuel]]; [lia..|]. split.
  - apply call_api_inner_ok. rewrite leaky_bucket_retries_once by done.
    by rewrite <- app_assoc.
  - reflexivity.
Qed.

Lemma rate_limit_sleeps_floor_and_retries_witness :
  call_api 2 (Query 1 (jan 1) (jan 2) 250)
    (Scripted [Raise (ClientError (Some 429) (Some (7 # 2)%Q)); Ok [obj 1 (jan 1)]] []) []
  = Some (Ok [obj 1 (jan 1)],
          Scripted [] [Query 1 (jan 1) (jan 2) 250; Query 1 (jan 1) (jan 2) 250],
          [leaky_bucket_handler 3; Sleep 3 false]).
Proof.
  assert (2 ≤ 2)%nat as Hfuel by lia.
  exact (proj1 (rate_limit_sleeps_floor_and_retries (Query 1 (jan 1) (jan 2) 250)
                  (7 # 2)%Q [obj 1 (jan 1)] 2 [] [] [] Hfuel)).
Defined.

(** ** Exceptions without a status code *)

(** C10. The give-up predicate is false for a client error without a status
    code, so the error is meant to be retried (the comment on the outer
    decorator reads "Retry other errors up to the max"). It is not: such an
    error, as [ClientError()] builds it, has no [Retry-After] header either,
    the wait generator of the inner decorator evaluates [float(None)] and
    raises [TypeError], and the call ends after its first request, although a
    success would have followed. *)
Theorem client_error_without_code_not_retried :
  is_not_status_code_fn [429] (ClientError None None) = false
  ∧ call_api 5 "orders"%string
      (Scripted [Raise (ClientError None None); Ok [obj 1 (jan 1)]] []) []
    = Some (Raise TypeError, Scripted [Ok [obj 1 (jan 1)]] ["orders"%string], []).
Proof. split; reflexivity. Qed.

(** X18. The give-up predicate is false for every exception without a
    truthy status code, whatever the set of statuses. A client error
    without a status code is therefore not given up on: when its response
    carries [Retry-After], the call sleeps and issues the request again. *)
Theorem no_status_code_is_not_given_up {P A} (status_code : list Z) (exc : exn)
    (q : P) (c : option Z) (h : Q) (v : A) fuel rest reqs log :
  truthy (code exc) = false →
  truthy c = false →
  (2 ≤ fuel)%nat →
  is_not_status_code_fn status_code exc = false
  ∧ call_api fuel q
      (Scripted (Raise (ClientError c (Some h)) :: Ok v :: rest) reqs) log
    = Some (Ok v, Scripted rest (reqs ++ [q; q]),
            log ++ [leaky_bucket_handler (Qfloor h); Sleep (Qfloor h) false]).
Proof.
  intros Hexc Hc Hfuel. split; [by apply giveup_without_code|].
  destruct fuel as [|[|fuel]]; [lia..|].
  apply call_api_inner_ok. rewrite leaky_bucket_retries_once.
  - by rewrite <- app_assoc.
  - by apply giveup_without_code.
Qed.

Lemma no_status_code_is_not_given_up_witness :
  is_not_status_code_fn (range 500 599) JSONDecodeError = false
  ∧ call_api 2 "orders"%string
      (Scripted [Raise (ClientError None (Some 1%Q)); Ok [obj 1 (jan 1)]] []) []
    = Some (Ok [obj 1 (jan 1)], Scripted [] ["orders"%string; "orders"%string],
            [leaky_bucket_handler 1; Sleep 1 false]).
Proof.
  assert (truthy (code JSONDecodeError) = false) as H1 by reflexivity.
  assert (truthy None = false) as H2 by reflexivity.
  assert (2 ≤ 2)%nat as H3 by lia.
  exact (no_status_code_is_not_given_up (range 500 599) JSONDecodeError
           "orders"%string None 1%Q [obj 1 (jan 1)] 2 [] [] [] H1 H2 H3).
Defined.

(** ** One asynchronous request *)

Lemma _get_async_reissues recursion_limit retried : ∀ params k tail,
  Forall reissued retried →
  (k + length retried ≤ recursion_limit)%nat →
  _get_async recursion_limit (retried ++ tail) params k
  = prepend (retry_log params k retried)
      (_get_async recursion_limit tail params (k + length retried)).
Proof.
  induction retried as [|r rs IH]; intros params k tail Hall Hdepth.
  - simpl. rewrite Nat.add_0_r.
    by destruct (_get_async recursion_limit tail params k) as [[]|].
  - apply Forall_cons in Hall as [Hr Hall]. simpl in Hdepth. simpl.
    assert ((recursion_limit <=? k)%nat = false) as -> by (apply Nat.leb_gt; lia).
    rewrite IH by (done || lia). rewrite <- Nat.add_succ_comm.
    destruct (_get_async recursion_limit tail params (S k + length rs))
      as [[x log]|] eqn:Htail.
    + destruct Hr as [[-> [h ->]]|Hr]; simpl.
      * done.
      * destruct (Z.eqb_spec (status r) 429) as [?|_]; [lia|].
        rewrite bool_decide_eq_true_2 by by apply elem_of_range. done.
    + destruct Hr as [[-> [h ->]]|Hr]; simpl; [done|].
      destruct (Z.eqb_spec (status r) 429) as [?|_]; [lia|].
      by rewrite bool_decide_eq_true_2 by by apply elem_of_range.
Qed.

(** One response answered by a retry at the deepest nesting the interpreter
    allows: the nested call raises. *)
Lemma _get_async_overflow recursion_limit retried : ∀ params k tail,
  Forall reissued retried →
  (k ≤ recursion_limit)%nat →
  (recursion_limit < k + length retried)%nat →
  _get_async recursion_limit (retried ++ tail) params k
  = Some (Raise RecursionError,
          retry_log params k (take (S recursion_limit - k) retried)).
Proof.
  induction retried as [|r rs IH]; intros params k tail Hall Hk Hdepth.
  - simpl in Hdepth. lia.
  - apply Forall_cons in Hall as [Hr Hall]. simpl in Hdepth.
    replace (S recursion_limit - k)%nat with (S (recursion_limit - k)) by lia.
    cbn [app _get_async firstn take retry_log].
    destruct (Nat.leb_spec recursion_limit k) as [Hle|Hgt].
    + replace (recursion_limit - k)%nat with 0%nat by lia. rewrite take_0. simpl.
      destruct Hr as [[-> [h ->]]|Hr]; simpl; [done|].
      destruct (Z.eqb_spec (status r) 429) as [?|_]; [lia|].
      by rewrite bool_decide_eq_true_2 by by apply elem_of_range.
    + rewrite IH by (done || lia).
      replace (S recursion_limit - S k)%nat with (recursion_limit - k)%nat by lia.
      destruct Hr as [[-> [h ->]]|Hr]; simpl; [done|].
      destruct (Z.eqb_spec (status r) 429) as [?|_]; [lia|].
      by rewrite bool_decide_eq_true_2 by by apply elem_of_range.
Qed.

(** The body handed back carries the page of a page job. *)
Lemma _get_async_page recursion_limit responses : ∀ params k b log p,
  _get_async recursion_limit responses params k = Some (Ok b, log) →
  p_page params = Some p → b_page b = Some p.
Proof.
  induction responses as [|r rs IH]; intros params k b log p; [done|]. simpl.
  destruct (status r =? 429).
  - destruct (retry_after r); [|done].
    destruct (recursion_limit <=? k)%nat; [done|].
    destruct (_get_async recursion_limit rs params (S k)) as [[x l]|] eqn:E; [|done].
    simpl. intros [= -> <-]. by eapply IH.
  - destruct (bool_decide _).
    + destruct (recursion_limit <=? k)%nat; [done|].
      destruct (_get_async recursion_limit rs params (S k)) as [[x l]|] eqn:E; [|done].
      simpl. intros [= -> <-]. by eapply IH.
    + intros [= <- <-] ->. done.
Qed.

(** With [Retry-After: 2.5] a request sleeps 2 seconds before it is issued
    again; and a response of status 599 is not answered by a retry: its body
    is decoded and returned as the page, after one GET. *)
Lemma async_floor_and_599 :
  let params := AsyncParams (jan 1) (jan 2) 250 (Some 1) in
  let page := Body None (Some [Row 1 (jan 1)]) None in
  let error_page := Body None None None in
  (_get_async 1000 [Response 429 (Some (5 # 2)%Q) error_page; Response 200 None page]
     params 0
   = Some (Ok (Body None (Some [Row 1 (jan 1)]) (Some 1)),
           [GET params 0; asyncio_sleep 2; GET params 1])
   ∧ ¬ (inject_Z 2 == 5 # 2)%Q)
  ∧ _get_async 1000 [Response 599 None error_page; Response 200 None page] params 0
    = Some (Ok (Body None None (Some 1)), [GET params 0]).
Proof. split_and!; [reflexivity| |reflexivity]. intros H. discriminate H. Qed.

(** C8 (amended). A page request of the asynchronous pager answers a 429
    response by sleeping the floor of [Retry-After] in seconds and issuing
    the same request again, and a response with a status from 500 to 598 by
    issuing it again without any sleep; this goes on for as many such
    responses as the remote gives, as long as the retries, which are nested
    calls, stay within what the interpreter's recursion limit allows, until
    another response comes, whose body is the result. [retry_limit] plays
    no part: the number of retries is not compared with it, and the pager
    gives the same result for every value of it. *)
Theorem async_request_retries_without_cap (recursion_limit : nat) (params : async_params)
    (retried : list response) (final : response) (rest : list response) (k : nat) :
  Forall reissued retried →
  (k + length retried ≤ recursion_limit)%nat →
  status final ≠ 429 →
  ¬ (500 ≤ status final < 599) →
  _get_async recursion_limit (retried ++ final :: rest) params k
  = Some (Ok (match p_page params with
              | Some p => Body (b_count (json final)) (b_results (json final)) (Some p)
              | None => json final
              end),
          retry_log params k retried ++ [GET params (k + length retried)])
  ∧ (Forall (λ r, 500 ≤ status r < 599) retried →
     retry_log params k retried = GET params <$> seq k (length retried))
  ∧ (∀ http as_completed limit limit' results_per_page ps budget,
       _runner recursion_limit http as_completed
         (MkRunAsync limit results_per_page ps budget)
       = _runner recursion_limit http as_completed
           (MkRunAsync limit' results_per_page ps budget)).
Proof.
  intros Hall Hdepth H429 H5xx. split_and!.
  - rewrite _get_async_reissues by done. simpl.
    destruct (Z.eqb_spec (status final) 429) as [?|_]; [done|].
    rewrite bool_decide_eq_false_2 by by rewrite elem_of_range.
    done.
  - clear. revert k. induction retried as [|r rs IH]; intros k H5; [done|].
    apply Forall_cons in H5 as [Hr H5]. simpl.
    destruct (Z.eqb_spec (status r) 429) as [?|_]; [lia|].
    simpl. f_equal. by apply IH.
  - reflexivity.
Qed.

Lemma async_request_retries_without_cap_witness :
  let params := AsyncParams (jan 1) (jan 2) 250 (Some 4) in
  let busy := Response 503 None (Body None None None) in
  let slow := Response 429 (Some (7 # 2)%Q) (Body None None None) in
  (length [busy; busy; slow; busy; busy; busy; busy] > MAX_RETRIES)%nat
  ∧ _get_async 1000 ([busy; busy; slow; busy; busy; busy; busy]
                     ++ Response 200 None (Body None (Some [Row 9 (jan 1)]) None) :: [])
      params 0
    = Some (Ok (Body None (Some [Row 9 (jan 1)]) (Some 4)),
            [GET params 0; GET params 1; GET params 2; asyncio_sleep 3;
             GET params 3; GET params 4; GET params 5; GET params 6; GET params 7]).
Proof.
  intros params busy slow.
  assert (reissued busy) as Hb by (right; simpl; lia).
  assert (reissued slow) as Hs by (left; split; [reflexivity|eexists; reflexivity]).
  assert (Forall reissued [busy; busy; slow; busy; busy; busy; busy]) as Hall
    by (repeat apply Forall_cons_2; try done; apply Forall_nil_2).
  assert (0 + length [busy; busy; slow; busy; busy; busy; busy] ≤ 1000)%nat as Hdepth
    by (simpl; lia).
  assert (status (Response 200 None (Body None (Some [Row 9 (jan 1)]) None)) ≠ 429)
    as H1 by (simpl; lia).
  assert (¬ (500 ≤ status (Response 200 None (Body None (Some [Row 9 (jan 1)]) None)) < 599))
    as H2 by (simpl; lia).
  split; [unfold MAX_RETRIES; simpl; lia|].
  exact (proj1 (async_request_retries_without_cap 1000 params _ _ [] 0 Hall Hdepth H1 H2)).
Defined.

(** ** The concurrent pager: pages, chunks, merge *)

Lemma ceil_div_spec a b :
  0 < b → (ceil_div a b - 1) * b < a ≤ ceil_div a b * b.
Proof.
  intros Hb. unfold ceil_div.
  pose proof (Z.div_mod (- a) b ltac:(lia)) as Hdm.
  pose proof (Z.mod_pos_bound (- a) b Hb) as Hmod.
  nia.
Qed.

Lemma chunk_from_concat {A} fuel : ∀ (array : list A) num,
  (length array ≤ fuel)%nat → (0 < num)%nat →
  concat (chunk_from fuel array num) = array.
Proof.
  induction fuel as [|fuel IH]; intros array num Hlen Hnum.
  - destruct array; [done|simpl in Hlen; lia].
  - destruct array as [|x xs]; [done|].
    cbn [chunk_from concat]. rewrite IH; [apply take_drop| |done].
    rewrite length_drop. simpl in *. lia.
Qed.

Lemma chunk_from_lookup {A} fuel : ∀ (array : list A) num i c,
  (0 < num)%nat →
  chunk_from fuel array num !! i = Some c →
  c = take num (drop (i * num) array) ∧ c ≠ [].
Proof.
  induction fuel as [|fuel IH]; intros array num i c Hnum; [done|].
  destruct array as [|x xs]; [done|]. cbn [chunk_from].
  destruct i as [|i].
  - intros [= <-]. split; [done|]. destruct num; [lia|done].
  - intros Hc. apply IH in Hc as [-> Hne]; [|done]. split; [|done].
    by rewrite drop_drop.
Qed.

(** The chunks are the consecutive slices of [num] jobs; the last one may
    be shorter, none is empty. *)
Lemma chunk_spec {A} (array : list A) num :
  (0 < num)%nat →
  concat (chunk array num) = array
  ∧ ∀ i c, chunk array num !! i = Some c →
           c = take num (drop (i * num) array) ∧ c ≠ [].
Proof.
  intros Hnum. split; [by apply chunk_from_concat|].
  intros i c. by apply chunk_from_lookup.
Qed.

Lemma Sorted_keyed (f : Z → list row) len : ∀ m,
  Sorted key_le ((λ k, (k, f k)) <$> seqZ m (Z.of_nat len)).
Proof.
  induction len as [|len IH]; intros m; [constructor|].
  rewrite seqZ_cons by lia. rewrite fmap_cons. constructor.
  - replace (Z.pred (Z.of_nat (S len))) with (Z.of_nat len) by lia. apply IH.
  - replace (Z.pred (Z.of_nat (S len))) with (Z.of_nat len) by lia.
    destruct len as [|len]; [constructor|].
    rewrite seqZ_cons by lia. constructor. unfold key_le. simpl. lia.
Qed.

(** A dictionary whose keys are the pages 1 to [n]: its sorted items are
    the pages in ascending order. *)
Lemma sorted_items_pages (d : gmap Z (list row)) (f : Z → list row) n :
  (∀ k, d !! k = if decide (k ∈ seqZ 1 n) then Some (f k) else None) →
  sorted_items d = (λ k, (k, f k)) <$> seqZ 1 n.
Proof.
  intros Hd. unfold sorted_items.
  assert (map_to_list d ≡ₚ (λ k, (k, f k)) <$> seqZ 1 n) as Hperm.
  { apply NoDup_Permutation.
    - apply NoDup_map_to_list.
    - apply NoDup_fmap_2; [|apply NoDup_seqZ]. by intros x y [=].
    - intros [k v]. rewrite elem_of_map_to_list, Hd, list_elem_of_fmap. split.
      + case_decide; [|done]. intros [= <-]. by exists k.
      + intros (k' & [= -> ->] & Hin). by rewrite decide_True. }
  apply (Sorted_unique_strong key_le).
  - intros [k1 v1] [k2 v2] H1 H2 Hle1 Hle2. unfold key_le in *. simpl in *.
    assert (k1 = k2) as -> by lia. f_equal.
    rewrite merge_sort_Permutation in H1. rewrite <- Hperm in H2.
    apply elem_of_map_to_list in H1, H2. congruence.
  - apply Sorted_merge_sort, _.
  - destruct (decide (0 ≤ n)).
    + rewrite <- (Z2Nat.id n) by done. apply Sorted_keyed.
    + rewrite seqZ_nil by lia. constructor.
  - by rewrite merge_sort_Permutation.
Qed.

Lemma flat_map_nonempty (f : Z → list row) (l : list Z) :
  flat_map (λ kv : Z * list row, if (0 <? length kv.2)%nat then kv.2 else [])
    ((λ k, (k, f k)) <$> l)
  = flat_map f l.
Proof.
  induction l as [|k l IH]; [done|].
  rewrite fmap_cons. cbn [flat_map]. rewrite IH. f_equal.
  simpl. by destruct (f k).
Qed.

Section ConcurrentPagerFacts.
Variable recursion_limit : nat.
Variable http : request → list response.
Variable as_completed : list async_params → list async_params.
Variable pages : Z → list row.

Lemma completes_page job b :
  p_page job = Some (page_of job) → _request recursion_limit http job = Some (Ok b) →
  b_page b = Some (page_of job).
Proof.
  unfold _request. intros Hp Hreq.
  destruct (_get_async _ _ job 0) as [[x log]|] eqn:E; [|done].
  simpl in Hreq. injection Hreq as ->. by eapply _get_async_page.
Qed.

Lemma gather_completes js : ∀ d,
  Forall (completes recursion_limit http pages) js →
  ∃ d', gather (omap (λ x, x) (_request recursion_limit http <$> js)) d = Ok d'
        ∧ forallb (λ x, bool_decide (is_Some x)) (_request recursion_limit http <$> js)
          = true
        ∧ ∀ k, d' !! k = if decide (k ∈ page_of <$> js) then Some (pages k) else d !! k.
Proof.
  induction js as [|j js IH]; intros d Hall.
  - exists d. split_and!; [done..|]. intros k. by rewrite decide_False by set_solver.
  - apply Forall_cons in Hall as [(p & b & Hp & Hreq & Hres) Hall].
    assert (page_of j = p) as Hpage by (unfold page_of; by rewrite Hp).
    assert (b_page b = Some p) as Hbp.
    { rewrite <- Hpage. apply completes_page; [by rewrite Hpage|done]. }
    destruct (IH (<[p := pages p]> d) Hall) as (d' & Hg & Hsome & Hlook).
    exists d'. rewrite !fmap_cons, Hreq. cbn [omap list_omap gather forallb].
    rewrite Hbp, Hres, Hg, Hsome, Hpage. split_and!; [done| |].
    { rewrite bool_decide_eq_true_2; [done|by eexists]. }
    intros k. rewrite Hlook. destruct (decide (k ∈ page_of <$> js)) as [Hin|Hnin].
    + rewrite decide_True; [done|]. by right.
    + destruct (decide (k = p)) as [->|Hne].
      * rewrite lookup_insert_eq. rewrite decide_True; [done|]. by left.
      * rewrite lookup_insert_ne by done. rewrite decide_False; [done|].
        rewrite elem_of_cons. tauto.
Qed.

(** The chunks sent are chunks of the list, in its order, from its first. *)
Lemma run_chunks_sent_prefix cs : ∀ a,
  (run_chunks recursion_limit http as_completed cs a).1 `prefix_of` cs.
Proof.
  induction cs as [|c cs IH]; intros a; [done|]. cbn [run_chunks].
  destruct (run_chunk _ _ _ c) as [[d|e]|].
  - specialize (IH (d ∪ a)).
    destruct (run_chunks _ _ _ cs (d ∪ a)) as [sent outcome]. simpl in *.
    by apply prefix_cons.
  - simpl. by apply prefix_cons, prefix_nil.
  - simpl. by apply prefix_cons, prefix_nil.
Qed.

Hypothesis any_order : ∀ c, as_completed c ≡ₚ c.

Lemma run_chunk_completes c :
  Forall (completes recursion_limit http pages) c →
  ∃ d, run_chunk recursion_limit http as_completed c = Some (Ok d)
       ∧ ∀ k, d !! k = if decide (k ∈ page_of <$> c) then Some (pages k) else None.
Proof.
  intros Hall. unfold run_chunk.
  assert (Forall (completes recursion_limit http pages) (as_completed c)) as Hall'
    by by rewrite any_order.
  destruct (gather_completes _ ∅ Hall') as (d & -> & -> & Hlook).
  exists d. split; [done|]. intros k. rewrite Hlook, lookup_empty.
  assert (k ∈ page_of <$> as_completed c ↔ k ∈ page_of <$> c) as Hiff
    by by rewrite any_order.
  destruct (decide (k ∈ page_of <$> as_completed c)) as [Hin|Hnin].
  - rewrite decide_True; [done|]. by apply Hiff.
  - rewrite decide_False; [done|]. by rewrite <- Hiff.
Qed.

Lemma run_chunks_completes cs : ∀ a,
  Forall (Forall (completes recursion_limit http pages)) cs →
  ∃ a', run_chunks recursion_limit http as_completed cs a = (cs, Some (Ok a'))
        ∧ ∀ k, a' !! k = if decide (k ∈ page_of <$> concat cs)
                         then Some (pages k) else a !! k.
Proof.
  induction cs as [|c cs IH]; intros a Hall.
  - exists a. split; [done|]. intros k. by rewrite decide_False by set_solver.
  - apply Forall_cons in Hall as [Hc Hall].
    destruct (run_chunk_completes c Hc) as (d & Hd & Hlook).
    destruct (IH (d ∪ a) Hall) as (a' & Ha' & Hlook').
    exists a'. cbn [run_chunks]. rewrite Hd, Ha'. split; [done|].
    intros k. rewrite Hlook'. cbn [concat]. rewrite fmap_app.
    destruct (decide (k ∈ page_of <$> concat cs)) as [Hin|Hnin].
    + rewrite decide_True; [done|]. apply elem_of_app. by right.
    + rewrite lookup_union, Hlook.
      destruct (decide (k ∈ page_of <$> c)) as [Hin'|Hnin'].
      * rewrite decide_True by (apply elem_of_app; by left). by destruct (a !! k).
      * rewrite decide_False by (rewrite elem_of_app; tauto). by destruct (a !! k).
Qed.
End ConcurrentPagerFacts.

Lemma page_of_jobs self count :
  page_of <$> jobs self count = seqZ 1 (num_pages self count).
Proof.
  unfold jobs. rewrite <- list_fmap_compose.
  rewrite <- (list_fmap_id (seqZ 1 _)) at 2. by apply list_fmap_ext.
Qed.

(** When every page request completes, the runner sends the page jobs chunk
    after chunk and returns the record lists of the pages in ascending page
    number, whatever the order of completion. *)
Lemma _runner_traced_in_page_order (recursion_limit : nat)
    (http : request → list response)
    (as_completed : list async_params → list async_params)
    (self : RunAsync) (count : Z) (pages : Z → list row) :
  0 < ra_results_per_page self →
  (0 < bucket_size self)%nat →
  (∀ c, as_completed c ≡ₚ c) →
  _request_count recursion_limit http self = Some (Ok count) →
  (∀ p, 1 ≤ p ≤ num_pages self count →
        ∃ b, _request recursion_limit http (with_page self p) = Some (Ok b)
             ∧ default [] (b_results b) = pages p) →
  _runner_traced recursion_limit http as_completed self
  = (chunk (jobs self count) (bucket_size self),
     Some (Ok (flat_map pages (seqZ 1 (num_pages self count))))).
Proof.
  intros Hrpp Hbucket Hord Hcount Hpages.
  destruct (chunk_spec (jobs self count) (bucket_size self) Hbucket) as [Hconcat _].
  unfold _runner_traced. rewrite Hcount.
  destruct (Z.eqb_spec (ra_results_per_page self) 0) as [?|_]; [lia|].
  assert (Forall (Forall (completes recursion_limit http pages))
            (chunk (jobs self count) (bucket_size self))) as Hall.
  { apply Forall_forall. intros c Hc. apply Forall_forall. intros j Hj.
    assert (j ∈ jobs self count) as Hin.
    { rewrite <- Hconcat. apply list_elem_of_In, in_concat.
      exists c. split; by apply list_elem_of_In. }
    apply list_elem_of_fmap in Hin as (p & -> & Hp).
    apply elem_of_seqZ in Hp.
    destruct (Hpages p ltac:(lia)) as (b & Hreq & Hres).
    by exists p, b. }
  destruct (run_chunks_completes recursion_limit http as_completed pages Hord _ ∅ Hall)
    as (a & Hrun & Hlook).
  cbv zeta. rewrite Hrun. f_equal. f_equal. f_equal.
  unfold ordered_results. rewrite (sorted_items_pages a pages (num_pages self count)).
  - by rewrite flat_map_nonempty.
  - intros k. rewrite Hlook, Hconcat, page_of_jobs, lookup_empty. done.
Qed.

Lemma _runner_in_page_order (recursion_limit : nat)
    (http : request → list response)
    (as_completed : list async_params → list async_params)
    (self : RunAsync) (count : Z) (pages : Z → list row) :
  0 < ra_results_per_page self →
  (0 < bucket_size self)%nat →
  (∀ c, as_completed c ≡ₚ c) →
  _request_count recursion_limit http self = Some (Ok count) →
  (∀ p, 1 ≤ p ≤ num_pages self count →
        ∃ b, _request recursion_limit http (with_page self p) = Some (Ok b)
             ∧ default [] (b_results b) = pages p) →
  _runner recursion_limit http as_completed self
  = Some (Ok (flat_map pages (seqZ 1 (num_pages self count)))).
Proof.
  intros Hrpp Hbucket Hord Hcount Hpages. unfold _runner.
  by rewrite (_runner_traced_in_page_order _ _ _ _ count pages).
Qed.

(** C7. For every count and positive page size the concurrent pager asks
    for [ceil(count / pageSize)] pages, numbered from 1; when every page
    request completes, the chunks of requests the runner sends, one after the
    other, are the consecutive slices of [bucket_size] page jobs (the last
    one may be shorter, none is empty), and its result is the concatenation
    of the record lists of the pages in ascending page number (an empty page
    adds nothing), whatever the order in which the requests of a chunk
    complete. With a budget of 2 and the 5 pages of 1001 records at 250 a
    page, the runner sends 3 chunks, of 2, 2 and 1 requests. *)
Theorem concurrent_pager_merges_in_page_order (recursion_limit : nat)
    (http : request → list response)
    (as_completed : list async_params → list async_params)
    (self : RunAsync) (count : Z) (pages : Z → list row) :
  0 < ra_results_per_page self →
  (0 < bucket_size self)%nat →
  (∀ c, as_completed c ≡ₚ c) →
  _request_count recursion_limit http self = Some (Ok count) →
  (∀ p, 1 ≤ p ≤ num_pages self count →
        ∃ b, _request recursion_limit http (with_page self p) = Some (Ok b)
             ∧ default [] (b_results b) = pages p) →
  (num_pages self count - 1) * ra_results_per_page self < count
     ≤ num_pages self count * ra_results_per_page self
  ∧ p_page <$> jobs self count = Some <$> seqZ 1 (num_pages self count)
  ∧ dispatched recursion_limit http as_completed self
    = chunk (jobs self count) (bucket_size self)
  ∧ concat (dispatched recursion_limit http as_completed self) = jobs self count
  ∧ (∀ i c, dispatched recursion_limit http as_completed self !! i = Some c →
            c = take (bucket_size self) (drop (i * bucket_size self) (jobs self count))
            ∧ c ≠ [])
  ∧ _runner recursion_limit http as_completed self
    = Some (Ok (flat_map pages (seqZ 1 (num_pages self count))))
  ∧ (∀ as_completed', (∀ c, as_completed' c ≡ₚ c) →
       _runner recursion_limit http as_completed' self
       = _runner recursion_limit http as_completed self)
  ∧ length <$> dispatched recursion_limit large_shop as_completed
                 (MkRunAsync 5 250 (AsyncParams (jan 1) (jan 2) 250 None) 2)
    = [2; 2; 1]%nat.
Proof.
  intros Hrpp Hbucket Horder Hcount Hpages.
  destruct (chunk_spec (jobs self count) (bucket_size self) Hbucket) as [Hconcat Hslices].
  assert (∀ order, (∀ c, order c ≡ₚ c) →
            _runner recursion_limit http order self
            = Some (Ok (flat_map pages (seqZ 1 (num_pages self count))))) as Hrun
    by (intros order Hord; by apply _runner_in_page_order).
  assert (dispatched recursion_limit http as_completed self
          = chunk (jobs self count) (bucket_size self)) as Hsent.
  { unfold dispatched.
    by rewrite (_runner_traced_in_page_order _ _ _ _ count pages). }
  split; [by apply ceil_div_spec|]. split_and!.
  - unfold jobs. rewrite <- list_fmap_compose. by apply list_fmap_ext.
  - done.
  - by rewrite Hsent.
  - by rewrite Hsent.
  - by apply Hrun.
  - intros order Hord. by rewrite !Hrun.
  - unfold dispatched.
    rewrite (_runner_traced_in_page_order _ _ _ _ 1001 (λ _, [])).
    + reflexivity.
    + simpl. lia.
    + simpl. lia.
    + done.
    + reflexivity.
    + intros p _. eexists. split; reflexivity.
Qed.

Lemma concurrent_pager_merges_in_page_order_witness :
  _runner 1000 small_shop reverse (RunAsync_init 5 2 (jan 1) (jan 2) "basic")
  = Some (Ok [Row 11 (jan 1); Row 12 (jan 1); Row 13 (jan 1)])
  ∧ length <$> dispatched 1000 small_shop reverse
                 (RunAsync_init 5 2 (jan 1) (jan 2) "basic")
    = [2]%nat.
Proof.
  pose (pages := λ p : Z, if decide (p = 1) then [Row 11 (jan 1); Row 12 (jan 1)]
                          else [Row 13 (jan 1)]).
  assert (0 < ra_results_per_page (RunAsync_init 5 2 (jan 1) (jan 2) "basic")) as H1
    by (simpl; lia).
  assert (0 < bucket_size (RunAsync_init 5 2 (jan 1) (jan 2) "basic"))%nat as H2
    by (simpl; lia).
  assert (∀ c : list async_params, reverse c ≡ₚ c) as H3
    by (intros c; apply reverse_Permutation).
  assert (_request_count 1000 small_shop (RunAsync_init 5 2 (jan 1) (jan 2) "basic")
          = Some (Ok 3)) as H4 by reflexivity.
  assert (∀ p, 1 ≤ p ≤ num_pages (RunAsync_init 5 2 (jan 1) (jan 2) "basic") 3 →
            ∃ b, _request 1000 small_shop
                   (with_page (RunAsync_init 5 2 (jan 1) (jan 2) "basic") p) = Some (Ok b)
                 ∧ default [] (b_results b) = pages p) as H5.
  { intros p Hp. change (num_pages _ 3) with 2 in Hp.
    assert (p = 1 ∨ p = 2) as [-> | ->] by lia; eexists; split; reflexivity. }
  destruct (concurrent_pager_merges_in_page_order 1000 small_shop reverse
              (RunAsync_init 5 2 (jan 1) (jan 2) "basic") 3 pages H1 H2 H3 H4 H5)
    as (_ & _ & Hsent & _ & _ & Hrun & _).
  split; [exact Hrun|]. rewrite Hsent. reflexivity.
Defined.

(** ** The two strategies against one collection *)

Lemma StronglySorted_filter_rows (P : row → Prop) `{∀ x, Decision (P x)} rows :
  StronglySorted id_lt rows → StronglySorted id_lt (filter P rows).
Proof.
  induction 1 as [|x l Hl IH Hx]; [constructor|].
  rewrite filter_cons. destruct (decide (P x)); [|done].
  constructor; [done|]. apply Forall_forall. intros y Hy.
  apply list_elem_of_filter in Hy as [_ Hy]. rewrite Forall_forall in Hx. auto.
Qed.

Lemma filter_all {A} (P : A → Prop) `{∀ x, Decision (P x)} l :
  Forall P l → filter P l = l.
Proof.
  induction 1 as [|x l Hx _ IH]; [done|]. by rewrite filter_cons_True, IH.
Qed.

Lemma filter_none {A} (P : A → Prop) `{∀ x, Decision (P x)} l :
  Forall (λ x, ¬ P x) l → filter P l = [].
Proof.
  induction 1 as [|x l Hx _ IH]; [done|]. by rewrite filter_cons_False, IH.
Qed.

(** The slices of [m] rows, one after the other, give the list back. *)
Lemma flat_map_slices {A} (l : list A) m n :
  flat_map (λ i, take m (drop (i * m) l)) (seq 0 n) = take (n * m) l.
Proof.
  induction n as [|n IH]; [done|].
  rewrite seq_S, flat_map_app, IH. simpl. rewrite app_nil_r.
  rewrite take_take_drop. f_equal. lia.
Qed.

(** A full page of a list in ascending id: its last row carries the largest
    id, and the rows after that id are the rest of the list. *)
Lemma full_page_last (remaining : list row) n :
  StronglySorted id_lt remaining → (0 < n)%nat → (n ≤ length remaining)%nat →
  ∃ o, last (take n remaining) = Some o
       ∧ max_id (Resource <$> take n remaining) = row_id o
       ∧ Forall (λ x, row_id x ≤ row_id o) (take n remaining)
       ∧ Forall (λ x, row_id o < row_id x) (drop n remaining).
Proof.
  intros Hsorted Hn Hlen.
  destruct (last (take n remaining)) as [o|] eqn:Hlast.
  2:{ apply last_None in Hlast. apply (f_equal length) in Hlast.
      rewrite length_take in Hlast. simpl in Hlast. lia. }
  exists o. split; [done|].
  apply last_Some in Hlast as [front Hfront].
  rewrite <- (take_drop n remaining), Hfront in Hsorted.
  assert (Forall (λ x, row_id x ≤ row_id o) (take n remaining)) as Hle.
  { rewrite Hfront. apply Forall_app. split.
    - apply StronglySorted_app_1_l in Hsorted.
      apply Forall_forall. intros x Hx.
      pose proof (StronglySorted_app_1_elem_of _ _ _ x o Hsorted Hx) as Hxo.
      specialize (Hxo ltac:(by left)). unfold id_lt in Hxo. lia.
    - repeat constructor. lia. }
  split_and!; [|done|].
  - assert (Resource <$> take n remaining ≠ []) as Hne
      by (rewrite Hfront, fmap_app; by destruct (Resource <$> front)).
    destruct (max_id_spec _ Hne) as [Hub (w & Hw & Hmax)].
    apply list_elem_of_fmap in Hw as (w' & -> & Hw').
    rewrite Forall_forall in Hle. rewrite Forall_forall in Hub.
    specialize (Hle w' Hw').
    assert (Resource o ∈ Resource <$> take n remaining) as Ho.
    { apply list_elem_of_fmap. exists o. split; [done|]. rewrite Hfront.
      apply elem_of_app. right. by left. }
    specialize (Hub _ Ho). unfold id in *. simpl in *. lia.
  - apply Forall_forall. intros x Hx.
    apply (StronglySorted_app_1_elem_of _ _ _ o x Hsorted); [|done].
    apply elem_of_app. right. by left.
Qed.

Section OneWindow.
Variable rows : list row.
Variable cfg : config.
Variable name : string.
Variables lo hi : timestamp.
Hypothesis page_size_pos : 0 < results_per_page cfg.

(** The request of the pager at [sid], when the rows of the window up to
    [sid] are [done] and those after it [remaining]. *)
Lemma remote_find_remaining done remaining sid :
  in_window lo hi rows = done ++ remaining →
  Forall (λ x, row_id x ≤ sid) done → Forall (λ x, sid < row_id x) remaining →
  remote_find rows (Query sid lo hi (results_per_page cfg)) tt
  = (Ok (Resource <$> take (Z.to_nat (results_per_page cfg)) remaining), tt).
Proof.
  intros Hwin Hdone Hrem. unfold remote_find. simpl. rewrite Hwin, filter_app.
  rewrite (filter_none _ done), (filter_all _ remaining); [done|done|].
  eapply Forall_impl; [exact Hdone|]. simpl. intros; lia.
Qed.

Lemma windowed_pages_drain k : ∀ done remaining sid r,
  (length remaining ≤ k)%nat →
  in_window lo hi rows = done ++ remaining →
  Forall (λ x, row_id x ≤ sid) done → Forall (λ x, sid < row_id x) remaining →
  StronglySorted id_lt remaining →
  ∃ m r', steps (remote_find rows) cfg name m (PageWithinWindow lo hi sid) tt r
          = (AdvanceWindow hi, tt, r')
        ∧ yielded r' = yielded r ++ (Resource <$> remaining).
Proof.
  induction k as [|k IH]; intros done remaining sid r Hlen Hwin Hdone Hrem Hsorted.
  all: pose proof (remote_find_remaining done remaining sid Hwin Hdone Hrem) as Hcall.
  all: set (n := Z.to_nat (results_per_page cfg)) in *.
  all: assert (Forall (λ o, sid ≤ id o) (Resource <$> take n remaining)) as Hids
         by (apply Forall_fmap, Forall_take; eapply Forall_impl;
             [exact Hrem|]; unfold id; simpl; intros; lia).
  all: destruct (decide (length remaining < n)%nat) as [Hshort|Hfull].
  1,3: exists 1%nat; eexists; simpl; unfold page_within_window;
       rewrite Hcall, (check_since_id_ok _ _ Hids); simpl;
       rewrite after_page_short by (rewrite length_fmap, length_take; lia);
       split; [reflexivity|]; simpl; by rewrite take_ge by lia.
  - lia.
  - destruct (full_page_last remaining n Hsorted ltac:(lia) ltac:(lia))
      as (o & Hlast & Hmax & Hle & Hgt).
    destruct (IH (done ++ take n remaining) (drop n remaining) (row_id o)
                (update_bookmark name (since_id_key (row_id o))
                   (yield_all (Resource <$> take n remaining) r)))
      as (m & r' & Hsteps & Hyield).
    + rewrite length_drop. lia.
    + by rewrite <- app_assoc, take_drop.
    + apply Forall_app. split; [|done].
      eapply Forall_impl; [exact Hdone|]. simpl. intros x Hx.
      assert (sid < row_id o); [|lia].
      rewrite Forall_forall in Hrem. apply Hrem.
      rewrite <- (take_drop n remaining). apply elem_of_app. left.
      by apply last_Some_elem_of.
    + done.
    + rewrite <- (take_drop n remaining) in Hsorted.
      by apply StronglySorted_app_1_r in Hsorted.
    + exists (S m), r'. split.
      * simpl. unfold page_within_window.
        rewrite Hcall, (check_since_id_ok _ _ Hids). simpl. unfold after_page.
        rewrite length_fmap, length_take_le by lia.
        destruct (Z.ltb_spec (Z.of_nat n) (results_per_page cfg)); [lia|].
        rewrite fmap_last, Hlast. simpl. rewrite Hmax.
        unfold id at 1. simpl. rewrite Z.eqb_refl. simpl. exact Hsteps.
      * rewrite Hyield. simpl. rewrite <- app_assoc, <- fmap_app. by rewrite take_drop.
Qed.
End OneWindow.

Lemma flat_map_fmap {A B C} (f : B → list C) (g : A → B) (l : list A) :
  flat_map f (g <$> l) = flat_map (λ x, f (g x)) l.
Proof. induction l as [|x l IH]; [done|]. rewrite fmap_cons. simpl. by rewrite IH. Qed.

(** The pages of the collection, put together in ascending page number, are
    the rows of the window. *)
Lemma pages_of_window (l : list row) limit :
  0 < limit →
  flat_map (λ p, take (Z.to_nat limit) (drop (Z.to_nat ((p - 1) * limit)) l))
    (seqZ 1 (ceil_div (Z.of_nat (length l)) limit))
  = l.
Proof.
  intros Hlimit. unfold seqZ. rewrite flat_map_fmap.
  rewrite (flat_map_ext _ (λ i, take (Z.to_nat limit) (drop (i * Z.to_nat limit) l))).
  - rewrite flat_map_slices. apply take_ge.
    pose proof (ceil_div_spec (Z.of_nat (length l)) limit Hlimit) as [_ Hceil].
    assert (0 ≤ ceil_div (Z.of_nat (length l)) limit) by nia.
    apply Nat2Z.inj_le. rewrite Nat2Z.inj_mul, !Z2Nat.id by lia. done.
  - intros i. do 2 f_equal.
    replace (Z.of_nat i + 1 - 1) with (Z.of_nat i) by lia.
    rewrite Z2Nat.inj_mul by lia. by rewrite Nat2Z.id.
Qed.

(** The concurrent pager against the collection returns the rows of its
    window, in ascending id. *)
Lemma remote_runner recursion_limit rows lo hi limit plan_name as_completed :
  0 < limit → (∀ c, as_completed c ≡ₚ c) →
  _runner recursion_limit (remote_http rows) as_completed
    (RunAsync_init MAX_RETRIES limit lo hi plan_name)
  = Some (Ok (in_window lo hi rows)).
Proof.
  intros Hlimit Hord.
  rewrite (_runner_in_page_order _ _ _ _ (Z.of_nat (length (in_window lo hi rows)))
             (λ p, take (Z.to_nat limit)
                     (drop (Z.to_nat ((p - 1) * limit)) (in_window lo hi rows)))).
  - unfold num_pages. simpl. by rewrite pages_of_window.
  - done.
  - simpl. destruct (String.eqb _ _); lia.
  - done.
  - reflexivity.
  - intros p _. eexists. split; reflexivity.
Qed.

Lemma in_window_empty lo hi rows : hi ≤ lo → in_window lo hi rows = [].
Proof.
  intros Hle. unfold in_window. apply filter_none, Forall_forall. intros; lia.
Qed.

Lemma replace_microsecond_0_whole t : t mod second = 0 → replace_microsecond_0 t = t.
Proof. unfold replace_microsecond_0. lia. Qed.

(** The two strategies differ on collections both succeed on. Over two
    windows, the windowed strategy yields the row of the first day before the
    row of the second day, the concurrent one yields them in ascending id.
    And when the state holds a [since_id] to resume from, the windowed
    strategy leaves out the rows up to it, the concurrent one yields them. *)
Lemma strategies_differ :
  (let rows := [Row 3 (jan 2 + hour); Row 5 (jan 1 + hour)] in
   let cfg := Config (jan 1) (Some (jan 3)) DATE_WINDOW_SIZE 250 false (jan 20) in
   ∃ r_sync r_async,
     sync_collection false cfg "orders" rows 1000 (λ c, c) 6 ∅ = Some (Returned, r_sync)
     ∧ sync_collection true cfg "orders" rows 1000 (λ c, c) 6 ∅ = Some (Returned, r_async)
     ∧ row_id <$> yielded r_sync = [5; 3]
     ∧ row_id <$> yielded r_async = [3; 5])
  ∧ (let rows := [Row 3 (jan 1 + hour); Row 7 (jan 1 + 2 * hour)] in
     let cfg := Config (jan 1) (Some (jan 2)) DATE_WINDOW_SIZE 250 false (jan 20) in
     let σ : state := {["orders"%string := Bookmarks None (Some 5)]} in
     ∃ r_sync r_async,
       sync_collection false cfg "orders" rows 1000 (λ c, c) 6 σ = Some (Returned, r_sync)
       ∧ sync_collection true cfg "orders" rows 1000 (λ c, c) 6 σ = Some (Returned, r_async)
       ∧ row_id <$> yielded r_sync = [7]
       ∧ row_id <$> yielded r_async = [3; 7]).
Proof.
  split; simpl; eexists _, _; split_and!; try (vm_compute; reflexivity).
Qed.

(** C9 (amended). For a stream that may run asynchronously, against a
    collection kept in ascending id with ids above 1, when the span from the
    bookmark to the upper bound fits in one window, both are whole seconds,
    and the state holds no [since_id] to resume from, the two strategies
    return and yield the same records in the same order and representation:
    the rows of the window in ascending id. *)
Theorem strategies_agree_on_one_window (rows : list row) (cfg : config) (name : string)
    (recursion_limit : nat) (as_completed : list async_params → list async_params) (σ : state) :
  name ∈ ASYNC_AVAILABLE_STREAMS →
  StronglySorted id_lt rows →
  Forall (λ r, 1 < row_id r) rows →
  0 < results_per_page cfg →
  or_1 (get_since_id name σ) = 1 →
  stop_time cfg ≤ get_bookmark cfg name σ + date_window_size cfg →
  get_bookmark cfg name σ mod second = 0 →
  stop_time cfg mod second = 0 →
  (∀ c, as_completed c ≡ₚ c) →
  ∃ fuel r_sync r_async,
    (∀ n, sync_collection false cfg name rows recursion_limit as_completed (fuel + n) σ
          = Some (Returned, r_sync))
    ∧ (∀ n, sync_collection true cfg name rows recursion_limit as_completed n σ
            = Some (Returned, r_async))
    ∧ yielded r_sync = yielded r_async
    ∧ yielded r_async = in_window (get_bookmark cfg name σ) (stop_time cfg) rows.
Proof.
  intros Hname Hsorted Hids Hsize Hsince Hspan Hb Hstop Hord.
  set (b := get_bookmark cfg name σ) in *.
  set (window := in_window b (stop_time cfg) rows).
  assert (∃ fuel r,
            (∀ n, get_objects (remote_find rows) (with_use_async false cfg) name
                    (fuel + n) tt σ = (Returned, tt, r))
            ∧ yielded r = Resource <$> window) as (fuel & r & Hsync & Hyield).
  { destruct (decide (b < stop_time cfg)) as [Hlt|Hge].
    - destruct (windowed_pages_drain rows (with_use_async false cfg) name b (stop_time cfg)
                  Hsize (length window) [] window 1 (Run σ [] []))
        as (m & r & Hsteps & Hyield).
      + done.
      + done.
      + constructor.
      + by apply list.Forall_forall; intros x [_ Hx]%list_elem_of_filter;
          rewrite Forall_forall in Hids; apply Hids.
      + by apply StronglySorted_filter_rows.
      + exists (1 + m + 1)%nat, r. split; [|done]. intros n. unfold get_objects.
        replace (1 + m + 1 + n)%nat with (1 + (m + (1 + n)))%nat by lia.
        rewrite steps_add. cbn [steps step].
        rewrite advance_window_spec.
        change (get_bookmark (with_use_async false cfg) name σ) with b.
        change (stop_time (with_use_async false cfg)) with (stop_time cfg).
        change (date_window_size (with_use_async false cfg)) with (date_window_size cfg).
        rewrite decide_True by done. rewrite Z.min_r by lia.
        simpl ctx_state. rewrite Hsince.
        rewrite steps_add, Hsteps. rewrite steps_add.
        cbn [steps step]. rewrite advance_window_spec.
        change (stop_time (with_use_async false cfg)) with (stop_time cfg).
        rewrite decide_False by lia. by apply steps_finished.
    - exists 1%nat, (Run σ [] []). split.
      + intros n. unfold get_objects. rewrite steps_add. cbn [steps step].
        rewrite advance_window_spec.
        change (get_bookmark (with_use_async false cfg) name σ) with b.
        change (stop_time (with_use_async false cfg)) with (stop_time cfg).
        rewrite decide_False by done. by apply steps_finished.
      + simpl. unfold window. by rewrite in_window_empty by lia. }
  exists fuel, (Run (ctx_state r) (to_dict <$> yielded r) (written r)).
  eexists. split_and!.
  - intros n. unfold sync_collection, sync. simpl use_async. simpl andb. cbn iota.
    by rewrite Hsync.
  - intros n. unfold sync_collection, sync. simpl use_async.
    rewrite bool_decide_eq_true_2 by done. simpl andb. cbn iota.
    unfold get_objects_async.
    change (get_bookmark (with_use_async true cfg) name σ) with b.
    change (stop_time (with_use_async true cfg)) with (stop_time cfg).
    change (results_per_page (with_use_async true cfg)) with (results_per_page cfg).
    rewrite !replace_microsecond_0_whole by done.
    rewrite remote_runner by done. reflexivity.
  - simpl. rewrite Hyield, <- list_fmap_compose. fold window.
    rewrite <- (list_fmap_id window) at 2. by apply list_fmap_ext.
  - done.
Qed.

Lemma strategies_agree_on_one_window_witness :
  let rows := [Row 3 (jan 1 + hour); Row 7 (jan 1 + 2 * hour);
               Row 8 (jan 1 + 2 * hour); Row 9 (jan 1 + 3 * hour)] in
  let cfg := cfg_2023 (Some (jan 2)) 2 in
  ∃ fuel r_sync r_async,
    (∀ n, sync_collection false cfg "orders" rows 1000 reverse (fuel + n) ∅
          = Some (Returned, r_sync))
    ∧ (∀ n, sync_collection true cfg "orders" rows 1000 reverse n ∅
            = Some (Returned, r_async))
    ∧ yielded r_sync = yielded r_async
    ∧ yielded r_async = rows.
Proof.
  intros rows cfg.
  assert ("orders"%string ∈ ASYNC_AVAILABLE_STREAMS) as H1 by (by left).
  assert (StronglySorted id_lt rows) as H2
    by (repeat (constructor; [|repeat apply Forall_cons_2; try apply Forall_nil_2;
                               unfold id_lt; simpl; lia]); constructor).
  assert (Forall (λ r, 1 < row_id r) rows) as H3
    by (repeat apply Forall_cons_2; try apply Forall_nil_2; simpl; lia).
  assert (0 < results_per_page cfg) as H4 by (simpl; lia).
  assert (or_1 (get_since_id "orders" (∅ : state)) = 1) as H5 by reflexivity.
  assert (stop_time cfg ≤ get_bookmark cfg "orders" ∅ + date_window_size cfg) as H6
    by (vm_compute; discriminate).
  assert (get_bookmark cfg "orders" ∅ mod second = 0) as H7 by reflexivity.
  assert (stop_time cfg mod second = 0) as H8 by reflexivity.
  assert (∀ c : list async_params, reverse c ≡ₚ c) as H9
    by (intros c; apply reverse_Permutation).
  destruct (strategies_agree_on_one_window rows cfg "orders" 1000 reverse ∅
              H1 H2 H3 H4 H5 H6 H7 H8 H9) as (fuel & r_sync & r_async & Hs & Ha & He & Hw).
  exists fuel, r_sync, r_async. split_and!; [done..|].
  rewrite Hw. reflexivity.
Defined.

(** * Further properties of the module *)

(** ** The bookmark store *)

(** X1. A bookmark written for a stream is read back, the other key of the
    stream keeps its value, and the bookmarks of every other stream are left
    as they were; removing [since_id] keeps the cursor, touches no other
    stream, and does not create an entry for a stream that has none. *)
Theorem bookmark_store_round_trip (name other : string) (w : bookmark_write) (σ : state) :
  other ≠ name →
  match w with
  | replication_key t =>
      get_bookmark_raw name (write_bookmark name w σ) = Some t
      ∧ get_since_id name (write_bookmark name w σ) = get_since_id name σ
  | since_id_key n =>
      get_since_id name (write_bookmark name w σ) = Some n
      ∧ get_bookmark_raw name (write_bookmark name w σ) = get_bookmark_raw name σ
  end
  ∧ write_bookmark name w σ !! other = σ !! other
  ∧ get_since_id name (pop_since_id name σ) = None
  ∧ get_bookmark_raw name (pop_since_id name σ) = get_bookmark_raw name σ
  ∧ pop_since_id name σ !! other = σ !! other
  ∧ (σ !! name = None → pop_since_id name σ = σ).
Proof.
  intros Hne. split_and!.
  - destruct w as [t|n]; split.
    + apply get_bookmark_raw_commit.
    + unfold get_since_id, write_bookmark. rewrite lookup_insert_eq. simpl.
      by destruct (σ !! name).
    + apply get_since_id_write.
    + apply get_bookmark_raw_write_since_id.
  - unfold write_bookmark. by rewrite lookup_insert_ne.
  - unfold get_since_id, pop_since_id. rewrite lookup_alter_eq. by destruct (σ !! name).
  - apply get_bookmark_raw_pop.
  - unfold pop_since_id. by rewrite lookup_alter_ne.
  - intros Hnone. unfold pop_since_id. apply map_eq. intros k.
    destruct (decide (k = name)) as [->|Hk].
    + rewrite lookup_alter_eq, Hnone. done.
    + by rewrite lookup_alter_ne.
Qed.

Lemma bookmark_store_round_trip_witness :
  let σ : state := {["orders"%string := Bookmarks (Some (jan 1)) (Some 7)]} in
  get_bookmark_raw "orders" (write_bookmark "orders" (replication_key (jan 2)) σ)
    = Some (jan 2)
  ∧ get_since_id "orders" (write_bookmark "orders" (replication_key (jan 2)) σ) = Some 7.
Proof.
  intros σ.
  assert ("customers"%string ≠ "orders"%string) as Hne by discriminate.
  exact (proj1 (bookmark_store_round_trip "orders" "customers"
                  (replication_key (jan 2)) σ Hne)).
Defined.

(** ** What a page step yields and writes *)

Lemma check_since_id_yields sid objects :
  Forall (λ o, sid ≤ id o) (check_since_id sid objects).1
  ∧ (check_since_id sid objects).1 `prefix_of` objects.
Proof.
  induction objects as [|o os [IH1 IH2]]; simpl.
  - split; [constructor|done].
  - destruct (Z.ltb_spec (id o) sid); simpl.
    + split; [constructor|apply prefix_nil].
    + destruct (check_since_id sid os) as [ys ok]; simpl in *.
      split; [by constructor|by apply prefix_cons].
Qed.

(** X2. Whatever the remote answers, one pass of the inner loop yields only
    records whose id is at least the [since_id] of the request, a prefix of
    the page in the order received, and records yielded earlier stay as they
    are; when the remote call raises, nothing is yielded and nothing is
    written. *)
Theorem page_yields_respect_since_id {R}
    (call_api : query → R → result (list resource) * R)
    cfg name updated_at_min updated_at_max sid rem r :
  (∃ ys, yielded (page_within_window call_api cfg name
                    updated_at_min updated_at_max sid rem r).2
         = yielded r ++ ys
       ∧ Forall (λ o, sid ≤ id o) ys
       ∧ ∀ objects,
           (call_api (Query sid updated_at_min updated_at_max (results_per_page cfg)) rem).1
             = Ok objects → ys `prefix_of` objects)
  ∧ ∀ e, (call_api (Query sid updated_at_min updated_at_max (results_per_page cfg)) rem).1
           = Raise e →
         page_within_window call_api cfg name updated_at_min updated_at_max sid rem r
         = (Raised e,
            (call_api (Query sid updated_at_min updated_at_max (results_per_page cfg)) rem).2,
            r).
Proof.
  unfold page_within_window.
  destruct (call_api _ rem) as [[objects|e] rem']; simpl.
  - split; [|done].
    pose proof (check_since_id_yields sid objects) as [Hall Hpre].
    destruct (check_since_id sid objects) as [ys [|]]; simpl in *.
    + exists ys. split_and!; [|done|by intros ? [= <-]].
      unfold after_page.
      destruct (_ <? _); [done|]. destruct (last objects); [|done].
      by destruct (negb _).
    + exists ys. split_and!; [done|done|by intros ? [= <-]].
  - split; [|by intros ? [= <-]]. exists []. split_and!; [by rewrite app_nil_r|constructor|done].
Qed.

(** X3. With a page limit of zero or less, an empty page is not the end of
    the window: [objects[-1]] raises [IndexError], and neither the cursor nor
    [since_id] is written. *)
Theorem empty_page_with_nonpositive_limit {R}
    (call_api : query → R → result (list resource) * R)
    cfg name updated_at_min updated_at_max sid rem rem' r :
  results_per_page cfg ≤ 0 →
  call_api (Query sid updated_at_min updated_at_max (results_per_page cfg)) rem
    = (Ok [], rem') →
  page_within_window call_api cfg name updated_at_min updated_at_max sid rem r
  = (Raised IndexError, rem', r).
Proof.
  intros Hle Hcall. unfold page_within_window. rewrite Hcall. simpl.
  unfold after_page. simpl length. change (Z.of_nat 0) with 0.
  destruct (Z.ltb_spec 0 (results_per_page cfg)); [lia|].
  destruct r. unfold yield_all. simpl. by rewrite app_nil_r.
Qed.

Lemma empty_page_with_nonpositive_limit_witness :
  page_within_window find (cfg_2023 None 0) "orders" (jan 1) (jan 2) 1
    (Scripted [Ok []] []) (Run ∅ [] [])
  = (Raised IndexError, Scripted [] [Query 1 (jan 1) (jan 2) 0], Run ∅ [] []).
Proof.
  assert (results_per_page (cfg_2023 None 0) ≤ 0) as H by (simpl; lia).
  exact (empty_page_with_nonpositive_limit find (cfg_2023 None 0) "orders"
           (jan 1) (jan 2) 1 (Scripted [Ok []] []) _ (Run ∅ [] []) H eq_refl).
Defined.

(** X4. On the windowed path, for a window size that is not negative, the
    cursors of the states written to the output never decrease, starting
    from the bookmark the run began with, whatever the remote answers and
    however far the run gets; and the cursor of the state is the last one
    written. *)
Theorem windowed_cursor_never_decreases {R}
    (call_api : query → R → result (list resource) * R) cfg name fuel rem σ :
  0 ≤ date_window_size cfg →
  nondecreasing (get_bookmark cfg name σ)
    (cursors cfg name (get_objects call_api cfg name fuel rem σ).2)
  ∧ List.last (cursors cfg name (get_objects call_api cfg name fuel rem σ).2)
      (get_bookmark cfg name σ)
    = get_bookmark cfg name (ctx_state (get_objects call_api cfg name fuel rem σ).2).
Proof.
  intros Hw.
  destruct (get_objects_cursor_monotone call_api cfg name fuel rem σ Hw) as (H1 & H2 & _).
  by split.
Qed.

Lemma windowed_cursor_never_decreases_witness :
  nondecreasing (jan 1)
    (cursors (cfg_2023 (Some (jan 3)) 2) "orders"
       (get_objects find (cfg_2023 (Some (jan 3)) 2) "orders" 9
          (Scripted [Ok [obj 4 (jan 1); obj 6 (jan 1)]; Ok []; Ok [obj 5 (jan 2)]] []) ∅).2).
Proof.
  assert (0 ≤ date_window_size (cfg_2023 (Some (jan 3)) 2)) as H by (vm_compute; discriminate).
  exact (proj1 (windowed_cursor_never_decreases find (cfg_2023 (Some (jan 3)) 2) "orders" 9
                  (Scripted [Ok [obj 4 (jan 1); obj 6 (jan 1)]; Ok []; Ok [obj 5 (jan 2)]] [])
                  ∅ H)).
Defined.

(** ** The windows of a run *)

(** After one pass of the inner loop the remote is in the state the call
    left it in, and the generator has ended with an exception, stands at the
    next window, which starts at [updated_at_max], or stays in the window. *)
Lemma page_within_window_shape {R} (call_api : query → R → result (list resource) * R)
    cfg name updated_at_min updated_at_max sid rem r :
  (page_within_window call_api cfg name updated_at_min updated_at_max sid rem r).1.2
  = (call_api (Query sid updated_at_min updated_at_max (results_per_page cfg)) rem).2
  ∧ ((∃ e, (page_within_window call_api cfg name updated_at_min updated_at_max sid rem r).1.1
           = Raised e)
     ∨ ((page_within_window call_api cfg name updated_at_min updated_at_max sid rem r).1.1
          = AdvanceWindow updated_at_max
        ∧ get_bookmark_raw name
            (ctx_state (page_within_window call_api cfg name
                          updated_at_min updated_at_max sid rem r).2)
          = Some updated_at_max
        ∧ get_since_id name
            (ctx_state (page_within_window call_api cfg name
                          updated_at_min updated_at_max sid rem r).2) = None)
     ∨ ∃ s, (page_within_window call_api cfg name updated_at_min updated_at_max sid rem r).1.1
            = PageWithinWindow updated_at_min updated_at_max s).
Proof.
  unfold page_within_window.
  destruct (call_api _ rem) as [[objects|e] rem']; simpl; [|by eauto].
  destruct (check_since_id sid objects) as [ys [|]]; simpl; [|by eauto].
  unfold after_page. destruct (_ <? _); simpl.
  - split; [done|]. right. left. split_and!; [done|..].
    + apply get_bookmark_raw_commit.
    + apply get_since_id_commit.
  - destruct (last objects) as [o|]; simpl; [|by eauto].
    destruct (negb _); simpl; by eauto.
Qed.

(** X5. A windowed run that began below [stop_time] and returned has stored
    [stop_time] as its cursor and left no [since_id] in the state, whatever
    the pages were. *)
Theorem returned_run_stores_stop_time {R}
    (call_api : query → R → result (list resource) * R) cfg name fuel rem σ :
  get_bookmark cfg name σ < stop_time cfg →
  (get_objects call_api cfg name fuel rem σ).1.1 = Returned →
  get_bookmark_raw name (ctx_state (get_objects call_api cfg name fuel rem σ).2)
    = Some (stop_time cfg)
  ∧ get_since_id name (ctx_state (get_objects call_api cfg name fuel rem σ).2) = None.
Proof.
  intros Hlt.
  assert (∀ n c rem r, window_inv cfg name (get_bookmark cfg name σ) c r →
            window_inv cfg name (get_bookmark cfg name σ)
              (steps call_api cfg name n c rem r).1.1
              (steps call_api cfg name n c rem r).2) as Hinv.
  { induction n as [|n IH]; intros c rem0 r Hc; [done|].
    simpl. destruct (step call_api cfg name c rem0 r) as [[c1 rem1] r1] eqn:Hstep.
    apply IH. destruct c as [u|u m s| |e]; simpl in Hstep.
    - injection Hstep as <- <- <-. rewrite advance_window_spec.
      case_decide as Hu; simpl; [lia|].
      destruct Hc as [->|(Hle & Hraw & Hsince)]; [lia|].
      assert (u = stop_time cfg) as -> by lia. done.
    - pose proof (page_within_window_shape call_api cfg name u m s rem0 r) as [_ Hshape].
      rewrite Hstep in Hshape. simpl in *.
      destruct Hshape as [[e ->]|[(-> & Hraw & Hsince)|[s' ->]]]; simpl; [done| |done].
      right. done.
    - by injection Hstep as <- <- <-.
    - by injection Hstep as <- <- <-. }
  intros Hret. unfold get_objects in *.
  specialize (Hinv fuel (AdvanceWindow (get_bookmark cfg name σ)) rem (Run σ [] [])
                ltac:(by left)).
  by rewrite Hret in Hinv.
Qed.

Lemma returned_run_stores_stop_time_witness :
  get_bookmark_raw "orders"
    (ctx_state (get_objects find (cfg_2023 (Some (jan 3)) 2) "orders" 9
                  (Scripted [Ok [obj 4 (jan 1); obj 6 (jan 1)]; Ok []; Ok [obj 5 (jan 2)]] [])
                  ∅).2)
  = Some (jan 3).
Proof.
  assert (get_bookmark (cfg_2023 (Some (jan 3)) 2) "orders" ∅
          < stop_time (cfg_2023 (Some (jan 3)) 2)) as H1 by (vm_compute; reflexivity).
  exact (proj1 (returned_run_stores_stop_time find (cfg_2023 (Some (jan 3)) 2) "orders" 9
                  (Scripted [Ok [obj 4 (jan 1); obj 6 (jan 1)]; Ok []; Ok [obj 5 (jan 2)]] [])
                  ∅ H1 eq_refl)).
Defined.

(** X6. For a window size that is not negative, every request the windowed
    pager sends lies between the bookmark the run began with and
    [stop_time]: its window starts at or after the bookmark and before
    [stop_time], does not end before it starts nor after [stop_time], and
    its limit is the configured page size. *)
Theorem requests_stay_within_bounds cfg name fuel (answers : list (result (list resource))) σ :
  0 ≤ date_window_size cfg →
  Forall (within_bounds cfg (get_bookmark cfg name σ))
    (requests (get_objects find cfg name fuel (Scripted answers []) σ).1.2).
Proof.
  intros Hw.
  assert (∀ n c rem r, bounds_inv cfg (get_bookmark cfg name σ) c rem →
            bounds_inv cfg (get_bookmark cfg name σ)
              (steps find cfg name n c rem r).1.1
              (steps find cfg name n c rem r).1.2) as Hinv.
  { induction n as [|n IH]; intros c rem0 r Hc; [done|].
    simpl. destruct (step find cfg name c rem0 r) as [[c1 rem1] r1] eqn:Hstep.
    apply IH. destruct Hc as [Hreqs Hc].
    destruct c as [u|u m s| |e]; simpl in Hstep.
    - injection Hstep as <- <- <-. split; [done|]. rewrite advance_window_spec.
      case_decide; [|done]. lia.
    - pose proof (page_within_window_shape find cfg name u m s rem0 r) as [Hrem Hshape].
      rewrite Hstep in Hrem, Hshape. simpl in *. split.
      + rewrite Hrem. unfold find. destruct (script rem0); simpl;
          (apply Forall_app; split; [done|]); repeat constructor; simpl; lia.
      + destruct Hshape as [[e ->]|[(-> & _)|[s' ->]]]; [done|lia|done].
    - by injection Hstep as <- <- <-.
    - by injection Hstep as <- <- <-. }
  unfold get_objects. apply Hinv. split; [constructor|simpl; lia].
Qed.

Lemma requests_stay_within_bounds_witness :
  Forall (within_bounds (cfg_2023 (Some (jan 3)) 2) (jan 1))
    (requests (get_objects find (cfg_2023 (Some (jan 3)) 2) "orders" 9
                 (Scripted [Ok [obj 4 (jan 1); obj 6 (jan 1)]; Ok []; Ok [obj 5 (jan 2)]] [])
                 ∅).1.2).
Proof.
  assert (0 ≤ date_window_size (cfg_2023 (Some (jan 3)) 2)) as H by (vm_compute; discriminate).
  exact (requests_stay_within_bounds (cfg_2023 (Some (jan 3)) 2) "orders" 9
           [Ok [obj 4 (jan 1); obj 6 (jan 1)]; Ok []; Ok [obj 5 (jan 2)]] ∅ H).
Defined.

(** X7. With a window size of zero the windowed pager never ends: against a
    remote whose pages are empty, from a bookmark below [stop_time] and with
    a positive page size, it commits the bookmark it began with over and
    over, and is still running after any number of passes. *)
Theorem zero_window_never_ends cfg name fuel σ :
  date_window_size cfg = 0 →
  get_bookmark cfg name σ < stop_time cfg →
  0 < results_per_page cfg →
  finished (get_objects always_empty cfg name fuel tt σ).1.1 = false
  ∧ Forall (λ c, c = get_bookmark cfg name σ)
      (cursors cfg name (get_objects always_empty cfg name fuel tt σ).2).
Proof.
  intros Hw Hlt Hsize. unfold get_objects. set (b := get_bookmark cfg name σ) in *.
  assert (∀ n c r,
            (c = AdvanceWindow b ∨ ∃ s, c = PageWithinWindow b b s) →
            Forall (λ c, c = b) (cursors cfg name r) →
            ((steps always_empty cfg name n c tt r).1.1 = AdvanceWindow b
             ∨ ∃ s, (steps always_empty cfg name n c tt r).1.1 = PageWithinWindow b b s)
            ∧ Forall (λ c, c = b) (cursors cfg name (steps always_empty cfg name n c tt r).2))
    as Hinv.
  { induction n as [|n IH]; intros c r Hc Hcur; [done|].
    simpl. destruct (step always_empty cfg name c tt r) as [[c1 rem1] r1] eqn:Hstep.
    destruct rem1. destruct Hc as [->|[s ->]]; simpl in Hstep.
    - injection Hstep as <- <-. apply IH; [|done]. right.
      rewrite advance_window_spec, decide_True by done. rewrite Hw, Z.add_0_r, Z.min_l by lia.
      by eexists.
    - unfold page_within_window, always_empty in Hstep. simpl in Hstep.
      rewrite after_page_short in Hstep by (simpl; lia).
      injection Hstep as <- <-. apply IH; [by left|].
      unfold cursors. simpl. rewrite fmap_app. apply Forall_app. split; [done|].
      repeat constructor. unfold get_bookmark. by rewrite get_bookmark_raw_commit. }
  destruct (Hinv fuel (AdvanceWindow b) (Run σ [] []) ltac:(by left) ltac:(constructor))
    as [[->|[s ->]] Hcur]; by split.
Qed.

Lemma zero_window_never_ends_witness :
  finished (get_objects always_empty
              (Config (jan 1) (Some (jan 2)) 0 250 false (jan 20)) "orders" 1000 tt ∅).1.1
  = false.
Proof.
  assert (date_window_size (Config (jan 1) (Some (jan 2)) 0 250 false (jan 20)) = 0)
    as H1 by reflexivity.
  assert (get_bookmark (Config (jan 1) (Some (jan 2)) 0 250 false (jan 20)) "orders" ∅
          < stop_time (Config (jan 1) (Some (jan 2)) 0 250 false (jan 20)))
    as H2 by (vm_compute; reflexivity).
  assert (0 < results_per_page (Config (jan 1) (Some (jan 2)) 0 250 false (jan 20)))
    as H3 by (simpl; lia).
  exact (proj1 (zero_window_never_ends (Config (jan 1) (Some (jan 2)) 0 250 false (jan 20))
                  "orders" 1000 ∅ H1 H2 H3)).
Defined.

(** ** The budget of a wrapped call *)

(** X8. A client error with a status other than 429 is not retried: the
    call ends with it after one request, without any sleep or log. *)
Theorem client_error_other_than_429_fails_at_once {P A} (q : P) (c : Z) (h : option Q)
    (rest : list (result A)) reqs log fuel :
  (1 ≤ fuel)%nat → c ≠ 0 → c ≠ 429 →
  call_api fuel q (Scripted (Raise (ClientError (Some c) h) :: rest) reqs) log
  = Some (Raise (ClientError (Some c) h), Scripted rest (reqs ++ [q]), log).
Proof.
  intros Hfuel H0 H429. destruct fuel as [|fuel]; [lia|].
  assert (is_not_status_code_fn [429] (ClientError (Some c) h) = true) as Hg.
  { unfold is_not_status_code_fn. simpl.
    destruct (Z.eqb_spec c 0); [done|]. simpl.
    rewrite bool_decide_eq_false_2; [done|]. rewrite list_elem_of_singleton. done. }
  apply call_api_inner_raise; [|done].
  unfold leaky_bucket, on_exception. simpl. by rewrite Hg.
Qed.

Lemma client_error_other_than_429_fails_at_once_witness :
  call_api 5 "orders"%string
    (Scripted [Raise (ClientError (Some 404) None); Ok [obj 1 (jan 1)]] []) []
  = Some (Raise (ClientError (Some 404) None),
          Scripted [Ok [obj 1 (jan 1)]] ["orders"%string], []).
Proof.
  assert (1 ≤ 5)%nat as H1 by lia.
  assert (404 ≠ 0) as H2 by lia.
  assert (404 ≠ 429) as H3 by lia.
  exact (client_error_other_than_429_fails_at_once "orders"%string 404 None
           [Ok [obj 1 (jan 1)]] [] [] 5 H1 H2 H3).
Defined.

(** X9. Fewer than five transient errors in a row (server errors of status
    500 to 598, format errors, undecodable bodies) are absorbed: the call
    returns the success that follows, after one request more than there were
    errors, having slept on waits of 1, 2, 4, ... seconds with jitter; five
    of them end the call with the fifth. *)
Theorem transient_errors_absorbed {P A} (q : P) (errs : list exn) (v : A) (e : exn)
    (rest : list (result A)) reqs log fuel :
  Forall retried errs → (5 ≤ fuel)%nat →
  ((length errs < 5)%nat →
     call_api fuel q (Scripted ((Raise <$> errs) ++ Ok v :: rest) reqs) log
     = Some (Ok v, Scripted rest (reqs ++ replicate (S (length errs)) q),
             log ++ backoff_events 0 (length errs)))
  ∧ (length errs = 4%nat → retried e →
     call_api fuel q (Scripted ((Raise <$> errs) ++ Raise e :: rest) reqs) log
     = Some (Raise e, Scripted rest (reqs ++ replicate 5 q),
             log ++ backoff_events 0 4)).
Proof.
  intros Hall Hfuel. destruct fuel as [|f]; [lia|].
  unfold call_api, shopify_error_handling, on_exception.
  set (inner := leaky_bucket (find q) (S f)).
  split.
  - intros Hlen.
    replace (S f) with (length errs + S (f - length errs))%nat by lia.
    subst inner.
    exact (outer_recovers q f errs (f - length errs) reqs log v rest Hall Hlen).
  - intros Hlen He.
    pose proof (outer_exhausted q f errs e (f - 4) reqs log rest Hall He
                  ltac:(unfold MAX_RETRIES; lia)) as H.
    rewrite Hlen in H.
    replace (S f) with (4 + S (f - 4))%nat by lia.
    subst inner. exact H.
Qed.

Lemma transient_errors_absorbed_witness :
  call_api 5 "orders"%string
    (Scripted ((Raise <$> [ServerError (Some 502); JSONDecodeError])
               ++ Ok [obj 1 (jan 1)] :: []) []) []
  = Some (Ok [obj 1 (jan 1)],
          Scripted [] ["orders"%string; "orders"%string; "orders"%string],
          [retry_handler 1 5; Sleep 1 true; retry_handler 2 5; Sleep 2 true]).
Proof.
  assert (Forall retried [ServerError (Some 502); JSONDecodeError]) as H1.
  { repeat apply Forall_cons_2; [|by apply retried_decode_error; right|apply Forall_nil_2].
    apply retried_server_error. lia. }
  assert (5 ≤ 5)%nat as H2 by lia.
  assert (length [ServerError (Some 502%Z); JSONDecodeError] < 5)%nat as H3 by (simpl; lia).
  exact (proj1 (transient_errors_absorbed "orders"%string
                  [ServerError (Some 502); JSONDecodeError] [obj 1 (jan 1)] FormatError
                  [] [] [] 5 H1 H2) H3).
Defined.

Section RetryFuel.
Context {R A : Type}.
Variable wait_gen : wait_generator.
Variable exception : exn → bool.
Variable giveup : exn → bool.
Variable on_backoff : nat → Z → event.
Variable max_tries : option nat.
Variable jitter : bool.
Variables target target' : R → list event → option (result A * R * list event).
Hypothesis target_mono : ∀ rem log x, target rem log = Some x → target' rem log = Some x.

(** A loop that has ended within some number of tries ends in the same way
    when it is given more, also around a target that was given more. *)
Lemma retry_mono fuel : ∀ fuel' tries wait rem log x,
  (fuel ≤ fuel')%nat →
  retry wait_gen exception giveup on_backoff max_tries jitter target
    fuel tries wait rem log = Some x →
  retry wait_gen exception giveup on_backoff max_tries jitter target'
    fuel' tries wait rem log = Some x.
Proof.
  induction fuel as [|fuel IH]; intros fuel' tries wait rem log x Hle; [done|].
  destruct fuel' as [|fuel']; [lia|]. cbn [retry].
  destruct (target rem log) as [[[[v|e] rem1] log1]|] eqn:Ht; [| |done].
  - rewrite (target_mono _ _ _ Ht). done.
  - rewrite (target_mono _ _ _ Ht).
    destruct (negb (exception e)); [done|].
    destruct (giveup e || bool_decide (max_tries = Some (S tries))); [done|].
    destruct (wait_next wait_gen wait e) as [seconds wait'| |e']; [|done..].
    apply IH. lia.
Qed.
End RetryFuel.

Section CallBudget.
Context {P A : Type}.
Variable q : P.

(** The inner decorator around a scripted remote ends within two requests:
    its wait generator yields once. *)
Lemma leaky_bucket_total fuel (rem : scripted P A) log :
  (2 ≤ fuel)%nat →
  ∃ x rem' log' k,
    leaky_bucket (find q) fuel rem log = Some (x, rem', log')
    ∧ requests rem' = requests rem ++ replicate k q ∧ (1 ≤ k ≤ 2)%nat.
Proof.
  intros Hfuel. destruct fuel as [|[|fuel]]; [lia..|].
  destruct rem as [answers reqs].
  unfold leaky_bucket, on_exception. cbn [retry]. unfold wrapper at 1, find at 1.
  cbn [script requests].
  destruct answers as [|[v|e] rest]; cbn iota beta.
  - simpl. eexists _, _, _, 1%nat. split_and!; [done|done|lia..].
  - eexists _, _, _, 1%nat. split_and!; [done|done|lia..].
  - destruct (is_client_error e) eqn:Hc; simpl negb; cbn iota.
    2:{ eexists _, _, _, 1%nat. split_and!; [done|done|lia..]. }
    destruct (is_not_status_code_fn [429] e); simpl orb; cbn iota.
    { eexists _, _, _, 1%nat. split_and!; [done|done|lia..]. }
    destruct e as [| c [h|] | | | | | | | | | |]; try discriminate Hc; simpl wait_next; cbn iota.
    2:{ eexists _, _, _, 1%nat. split_and!; [done|done|lia..]. }
    cbn [retry]. unfold wrapper at 1, find at 1. cbn [script requests].
    destruct rest as [|[v2|e2] rest2]; cbn iota beta.
    + simpl. eexists _, _, _, 2%nat. split_and!; [done| |lia..].
      simpl. by rewrite <- app_assoc.
    + eexists _, _, _, 2%nat. split_and!; [done| |lia..]. simpl. by rewrite <- app_assoc.
    + destruct (negb (is_client_error e2)); cbn iota.
      { eexists _, _, _, 2%nat. split_and!; [done| |lia..]. simpl. by rewrite <- app_assoc. }
      destruct (is_not_status_code_fn [429] e2 || _); cbn iota.
      { eexists _, _, _, 2%nat. split_and!; [done| |lia..]. simpl. by rewrite <- app_assoc. }
      simpl wait_next. cbn iota.
      eexists _, _, _, 2%nat. split_and!; [done| |lia..]. simpl. by rewrite <- app_assoc.
Qed.

(** The outer decorator makes at most five tries. *)
Lemma outer_total n : ∀ fuel inner_fuel tries wait (rem : scripted P A) log,
  (tries + n = MAX_RETRIES)%nat → (1 ≤ n)%nat → (n ≤ fuel)%nat → (2 ≤ inner_fuel)%nat →
  ∃ x rem' log' k,
    retry expo is_server_or_decode_error (is_not_status_code_fn (range 500 599))
      (λ tries _, retry_handler tries MAX_RETRIES) (Some MAX_RETRIES) true
      (leaky_bucket (find q) inner_fuel) fuel tries wait rem log
    = Some (x, rem', log')
    ∧ requests rem' = requests rem ++ replicate k q ∧ (1 ≤ k ≤ 2 * n)%nat.
Proof.
  induction n as [|n IH]; intros fuel inner_fuel tries wait rem log Htries Hn Hfuel Hinner;
    [lia|].
  destruct fuel as [|fuel]; [lia|]. cbn [retry].
  destruct (leaky_bucket_total inner_fuel rem log Hinner)
    as (x & rem1 & log1 & k1 & -> & Hreq1 & Hk1).
  destruct x as [v|e].
  { eexists _, _, _, k1. split_and!; [done|done|lia..]. }
  destruct (negb (is_server_or_decode_error e)).
  { eexists _, _, _, k1. split_and!; [done|done|lia..]. }
  destruct (is_not_status_code_fn (range 500 599) e); simpl orb; cbn iota.
  { eexists _, _, _, k1. split_and!; [done|done|lia..]. }
  case_bool_decide as Hmax; cbn iota.
  { eexists _, _, _, k1. split_and!; [done|done|lia..]. }
  simpl wait_next. cbn iota.
  assert (1 ≤ n)%nat as Hn' by (destruct n; [|lia]; exfalso; apply Hmax; f_equal; lia).
  destruct (IH fuel inner_fuel (S tries) (S wait) rem1
              (log1 ++ [retry_handler (S tries) MAX_RETRIES; Sleep (2 ^ Z.of_nat wait) true])
              ltac:(lia) Hn' ltac:(lia) Hinner)
    as (x2 & rem2 & log2 & k2 & -> & Hreq2 & Hk2).
  eexists _, _, _, (k1 + k2)%nat. split_and!; [done| |lia..].
  by rewrite Hreq2, Hreq1, replicate_add, app_assoc.
Qed.
End CallBudget.

(** X10. A wrapped call against a scripted remote always ends: whatever the
    remote answers, it returns or raises after at least one and at most ten
    requests, all of them the same request; the outcome is the same for
    every number of tries allowed to the model from five on. *)
Theorem call_api_ends_within_ten_requests {P A} (q : P) (rem : scripted P A) log fuel :
  (5 ≤ fuel)%nat →
  ∃ x rem' log' k,
    call_api fuel q rem log = Some (x, rem', log')
    ∧ call_api 5 q rem log = Some (x, rem', log')
    ∧ requests rem' = requests rem ++ replicate k q
    ∧ (1 ≤ k ≤ 10)%nat.
Proof.
  intros Hfuel.
  destruct (outer_total q 5 5 5 0 (wait_init expo) rem log)
    as (x & rem' & log' & k & Hrun & Hreq & Hk); [done|lia..|].
  exists x, rem', log', k. split_and!; [|done|done|lia..].
  unfold call_api, shopify_error_handling, on_exception in *.
  eapply retry_mono; [|exact Hfuel|exact Hrun].
  intros rem0 log0 y Hy. unfold leaky_bucket, on_exception in *.
  eapply retry_mono; [|exact Hfuel|exact Hy]. by intros.
Qed.

Lemma call_api_ends_within_ten_requests_witness :
  ∃ x rem' log' k,
    call_api 7 "orders"%string
      (Scripted [Raise (ServerError (Some 500)); Raise (ClientError (Some 429) (Some 1%Q));
                 Ok [obj 1 (jan 1)]] []) []
    = Some (x, rem', log')
    ∧ (1 ≤ k ≤ 10)%nat.
Proof.
  assert (5 ≤ 7)%nat as H by lia.
  destruct (call_api_ends_within_ten_requests "orders"%string
              (Scripted [Raise (ServerError (Some 500));
                         Raise (ClientError (Some 429) (Some 1%Q));
                         Ok [obj 1 (jan 1)]] []) [] 7 H)
    as (x & rem' & log' & k & H1 & _ & _ & H2).
  by exists x, rem', log', k.
Defined.

(** ** The concurrent pager at its edges *)

(** X11. Once the count request has answered, a page size of zero ends the
    runner with [ZeroDivisionError], and with a positive page size a count of
    zero or less gives an empty result without any page request: the outcome
    does not depend on what the collection endpoint would answer. *)
Theorem runner_without_pages (recursion_limit : nat) (http : request → list response)
    (as_completed : list async_params → list async_params) (self : RunAsync) (count : Z) :
  _request_count recursion_limit http self = Some (Ok count) →
  (ra_results_per_page self = 0 →
     _runner recursion_limit http as_completed self = Some (Raise ZeroDivisionError))
  ∧ (0 < ra_results_per_page self → count ≤ 0 →
     _runner recursion_limit http as_completed self = Some (Ok [])
     ∧ jobs self count = []).
Proof.
  intros Hcount. unfold _runner, _runner_traced. rewrite Hcount. split.
  - intros ->. done.
  - intros Hsize Hle.
    destruct (Z.eqb_spec (ra_results_per_page self) 0) as [?|_]; [lia|].
    assert (jobs self count = []) as Hjobs.
    { unfold jobs, num_pages. rewrite seqZ_nil; [done|].
      pose proof (ceil_div_spec count (ra_results_per_page self) Hsize). nia. }
    rewrite Hjobs. split; [|done]. reflexivity.
Qed.

Lemma runner_without_pages_witness :
  _runner 1000 empty_shop reverse (RunAsync_init 5 0 (jan 1) (jan 2) "basic")
  = Some (Raise ZeroDivisionError).
Proof.
  assert (_request_count 1000 empty_shop (RunAsync_init 5 0 (jan 1) (jan 2) "basic")
          = Some (Ok 0)) as H by reflexivity.
  exact (proj1 (runner_without_pages 1000 empty_shop reverse
                  (RunAsync_init 5 0 (jan 1) (jan 2) "basic") 0 H) eq_refl).
Defined.

(** X12. A 429 response without a [Retry-After] header ends an asynchronous
    request with [TypeError], also after responses that were answered by a
    retry, as many of them as the interpreter allows nested calls; the request
    is not issued again. *)
Theorem async_rate_limit_without_header (recursion_limit : nat) (params : async_params)
    (retried : list response) (b : body) (rest : list response) (k : nat) :
  Forall reissued retried →
  (k + length retried ≤ recursion_limit)%nat →
  _get_async recursion_limit (retried ++ Response 429 None b :: rest) params k
  = Some (Raise TypeError, retry_log params k retried ++ [GET params (k + length retried)]).
Proof.
  intros Hall Hdepth. rewrite _get_async_reissues by done. reflexivity.
Qed.

Lemma async_rate_limit_without_header_witness :
  let params := AsyncParams (jan 1) (jan 2) 250 (Some 1) in
  _get_async 1000 ([Response 500 None (Body None None None)]
                   ++ Response 429 None (Body None None None)
                   :: [Response 200 None (Body None (Some []) None)]) params 0
  = Some (Raise TypeError, [GET params 0; GET params 1]).
Proof.
  intros params.
  assert (Forall reissued [Response 500 None (Body None None None)]) as H.
  { apply Forall_cons_2; [|apply Forall_nil_2]. right. simpl. lia. }
  assert (0 + length [Response 500 None (Body None None None)] ≤ 1000)%nat as Hdepth
    by (simpl; lia).
  exact (async_rate_limit_without_header 1000 params _ (Body None None None)
           [Response 200 None (Body None (Some []) None)] 0 H Hdepth).
Defined.

Lemma chunk_from_count {A} fuel : ∀ (array : list A) num,
  (length array ≤ fuel)%nat → (0 < num)%nat →
  (length array ≤ length (chunk_from fuel array num) * num
   ∧ length (chunk_from fuel array num) * num < length array + num)%nat.
Proof.
  induction fuel as [|fuel IH]; intros array num Hlen Hnum.
  - destruct array; simpl in *; lia.
  - destruct array as [|x xs]; [simpl; lia|].
    cbn [chunk_from length].
    destruct (IH (drop num (x :: xs)) num) as [IH1 IH2]; [|done|].
    { rewrite length_drop. simpl in *. lia. }
    rewrite length_drop in IH1, IH2. simpl length in *.
    set (n' := length (chunk_from fuel (drop num (x :: xs)) num)) in *.
    destruct (decide (S (length xs) < num)%nat) as [Hshort|Hlong].
    + replace (S (length xs) - num)%nat with 0%nat in * by lia.
      assert (n' = 0)%nat as -> by nia. lia.
    + assert (S (length xs) - num + num = S (length xs))%nat as Heq by lia.
      rewrite Heq in IH2. split; [|simpl; lia].
      simpl. lia.
Qed.

(** The chunks the runner has sent are the first chunks of the page jobs
    of the count it received; it sends none without a count. *)
Lemma dispatched_prefix recursion_limit http as_completed self :
  match _request_count recursion_limit http self with
  | Some (Ok count) =>
      dispatched recursion_limit http as_completed self
        `prefix_of` chunk (jobs self count) (bucket_size self)
  | _ => dispatched recursion_limit http as_completed self = []
  end.
Proof.
  unfold dispatched, _runner_traced.
  destruct (_request_count recursion_limit http self) as [[count|e]|]; [|done..].
  destruct (ra_results_per_page self =? 0); [apply prefix_nil|]. cbv zeta.
  pose proof (run_chunks_sent_prefix recursion_limit http as_completed
                (chunk (jobs self count) (bucket_size self)) ∅) as Hsent.
  by destruct (run_chunks _ _ _ _ _) as [sent [[d|e]|]].
Qed.

(** X13. The runner of a pager built by [RunAsync.__init__] never sends
    more than its budget of requests in one chunk: 80 for the plan
    ["shopify_plus"], 40 for every other plan. Whatever the remote answers
    and however far the runner gets, no chunk it sends is empty, the chunks
    it has sent are the first chunks of the page jobs of the count it
    received, in their order, and they are never more than the number of
    page jobs divided by the budget, rounded up. *)
Theorem chunks_within_budget (recursion_limit : nat) (http : request → list response)
    (as_completed : list async_params → list async_params)
    (limit : nat) (results_per_page : Z)
    (updated_at_min updated_at_max : timestamp) (plan_name : string)
    (c : list async_params) :
  c ∈ dispatched recursion_limit http as_completed
        (RunAsync_init limit results_per_page updated_at_min updated_at_max plan_name) →
  (1 ≤ length c
   ≤ bucket_size (RunAsync_init limit results_per_page updated_at_min updated_at_max
                    plan_name))%nat
  ∧ bucket_size (RunAsync_init limit results_per_page updated_at_min updated_at_max plan_name)
    = (if decide (plan_name = "shopify_plus"%string) then 80 else 40)%nat
  ∧ ∃ count,
      _request_count recursion_limit http
        (RunAsync_init limit results_per_page updated_at_min updated_at_max plan_name)
      = Some (Ok count)
      ∧ dispatched recursion_limit http as_completed
          (RunAsync_init limit results_per_page updated_at_min updated_at_max plan_name)
        `prefix_of`
        chunk (jobs (RunAsync_init limit results_per_page updated_at_min updated_at_max
                       plan_name) count)
          (bucket_size (RunAsync_init limit results_per_page updated_at_min updated_at_max
                          plan_name))
      ∧ ∀ n_jobs n_sent budget,
          n_jobs = length (jobs (RunAsync_init limit results_per_page updated_at_min
                                   updated_at_max plan_name) count) →
          budget = bucket_size (RunAsync_init limit results_per_page updated_at_min
                                  updated_at_max plan_name) →
          n_sent = length (dispatched recursion_limit http as_completed
                             (RunAsync_init limit results_per_page updated_at_min
                                updated_at_max plan_name)) →
          (n_sent * budget < n_jobs + budget)%nat.
Proof.
  set (self := RunAsync_init limit results_per_page updated_at_min updated_at_max plan_name).
  assert (bucket_size self
          = (if decide (plan_name = "shopify_plus"%string) then 80 else 40)%nat) as Hbucket.
  { unfold self. simpl. destruct (String.eqb_spec plan_name "shopify_plus");
      case_decide; done. }
  assert (0 < bucket_size self)%nat as Hpos by (rewrite Hbucket; case_decide; lia).
  intros Hc.
  pose proof (dispatched_prefix recursion_limit http as_completed self) as Hsent.
  destruct (_request_count recursion_limit http self) as [[count|e]|] eqn:Hcount;
    [|rewrite Hsent in Hc; by apply elem_of_nil in Hc..].
  assert (c ∈ chunk (jobs self count) (bucket_size self)) as Hin.
  { destruct Hsent as [later ->]. apply elem_of_app. by left. }
  apply list_elem_of_lookup in Hin as [i Hi].
  apply chunk_from_lookup in Hi as [Hslice Hne]; [|done].
  split_and!.
  - destruct c; [done|]. simpl. lia.
  - rewrite Hslice, length_take. lia.
  - done.
  - exists count. split_and!; [done..|].
    intros n_jobs n_sent budget -> -> ->.
    pose proof (chunk_from_count (length (jobs self count)) (jobs self count)
                  (bucket_size self) ltac:(done) Hpos) as [_ Hub].
    apply prefix_length in Hsent. unfold chunk in Hsent. nia.
Qed.

Lemma chunks_within_budget_witness :
  length <$> dispatched 1000 large_shop reverse (RunAsync_init 5 20 (jan 1) (jan 2) "basic")
  = [40; 11]%nat
  ∧ (1 ≤ length (with_page (RunAsync_init 5 20 (jan 1) (jan 2) "basic") <$> seqZ 41 11)
     ≤ 40)%nat.
Proof.
  split; [vm_compute; reflexivity|].
  assert ((with_page (RunAsync_init 5 20 (jan 1) (jan 2) "basic") <$> seqZ 41 11)
          ∈ dispatched 1000 large_shop reverse
              (RunAsync_init 5 20 (jan 1) (jan 2) "basic")) as H.
  { apply list_elem_of_lookup. exists 1%nat. vm_compute. reflexivity. }
  exact (proj1 (chunks_within_budget 1000 large_shop reverse 5 20 (jan 1) (jan 2)
                  "basic" _ H)).
Defined.

(** X14. The asynchronous strategy commits all or nothing: when the runner
    fails, nothing is yielded and the state is not touched; when it
    succeeds, the records are yielded and the state is written once, with
    [stop_time] as the cursor of the stream, its [since_id] and the
    bookmarks of the other streams left as they were. *)
Theorem async_commits_all_or_nothing (cfg : config) (name : string)
    (recursion_limit : nat) (http : request → list response)
    (as_completed : list async_params → list async_params) (plan_name : string)
    (σ : state) (c : control) (r : run row) :
  get_objects_async cfg name recursion_limit http as_completed plan_name σ = Some (c, r) →
  (∃ e, c = Raised e ∧ r = Run σ [] [])
  ∨ (c = Returned
     ∧ written r = [ctx_state r]
     ∧ get_bookmark_raw name (ctx_state r) = Some (stop_time cfg)
     ∧ get_since_id name (ctx_state r) = get_since_id name σ
     ∧ ∀ other, other ≠ name → ctx_state r !! other = σ !! other).
Proof.
  unfold get_objects_async.
  destruct (_runner _ _ _ _) as [[objects|e]|]; [| |done].
  - intros [= <- <-]. right. simpl. split_and!; [done|done|..].
    + apply get_bookmark_raw_commit.
    + unfold get_since_id, write_bookmark. rewrite lookup_insert_eq. simpl.
      by destruct (σ !! name).
    + intros other Hne. unfold write_bookmark. by rewrite lookup_insert_ne.
  - intros [= <- <-]. left. by exists e.
Qed.

Lemma async_commits_all_or_nothing_witness :
  ∃ e, Raised KeyError = Raised e
       ∧ Run (∅ : state) ([] : list row) [] = Run ∅ [] [].
Proof.
  assert (get_objects_async (cfg_2023 (Some (jan 2)) 2) "orders" 1000
            (λ _, [Response 200 None (Body None None None)]) reverse "basic" ∅
          = Some (Raised KeyError, Run ∅ [] [])) as H by reflexivity.
  destruct (async_commits_all_or_nothing _ _ _ _ _ _ _ _ _ H) as [Hfail|[Hret _]].
  - exact Hfail.
  - discriminate Hret.
Defined.

(** ** A windowed run over a whole collection *)

Lemma steps_window_inv {R} (call_api : query → R → result (list resource) * R)
    cfg name start n : ∀ c rem r,
  start < stop_time cfg →
  window_inv cfg name start c r →
  window_inv cfg name start (steps call_api cfg name n c rem r).1.1
    (steps call_api cfg name n c rem r).2.
Proof.
  induction n as [|n IH]; intros c rem0 r Hlt Hc; [done|].
  simpl. destruct (step call_api cfg name c rem0 r) as [[c1 rem1] r1] eqn:Hstep.
  apply IH; [done|]. destruct c as [u|u m s| |e]; simpl in Hstep.
  - injection Hstep as <- <- <-. rewrite advance_window_spec.
    case_decide as Hu; simpl; [lia|].
    destruct Hc as [->|(Hle & Hraw & Hsince)]; [lia|].
    assert (u = stop_time cfg) as -> by lia. done.
  - pose proof (page_within_window_shape call_api cfg name u m s rem0 r) as [_ Hshape].
    rewrite Hstep in Hshape. simpl in *.
    destruct Hshape as [[e ->]|[(-> & Hraw & Hsince)|[s' ->]]]; simpl; [done| |done].
    right. done.
  - by injection Hstep as <- <- <-.
  - by injection Hstep as <- <- <-.
Qed.

(** Two windows that follow each other hold the rows of the window they
    make up. *)
Lemma in_window_split lo mid hi rows :
  lo ≤ mid ≤ hi →
  in_window lo hi rows ≡ₚ in_window lo mid rows ++ in_window mid hi rows.
Proof.
  intros Hmid. unfold in_window. induction rows as [|x xs IH]; [done|].
  rewrite !filter_cons.
  destruct (decide (lo ≤ row_updated_at x < hi)) as [Hin|Hout].
  - destruct (decide (lo ≤ row_updated_at x < mid)) as [Hfirst|Hsecond].
    + rewrite decide_False by lia. simpl. by rewrite IH.
    + rewrite decide_True by lia. rewrite IH. apply Permutation_middle.
  - rewrite !decide_False by lia. done.
Qed.

Section WholeCollection.
Variable rows : list row.
Variable cfg : config.
Variable name : string.
Hypothesis rows_sorted : StronglySorted id_lt rows.
Hypothesis ids_above_1 : Forall (λ r, 1 < row_id r) rows.
Hypothesis page_size_pos : 0 < results_per_page cfg.
Hypothesis window_pos : 0 < date_window_size cfg.

Lemma windows_drain k : ∀ u r,
  stop_time cfg - u ≤ Z.of_nat k * date_window_size cfg →
  or_1 (get_since_id name (ctx_state r)) = 1 →
  ∃ m r' ys,
    (∀ n, steps (remote_find rows) cfg name (m + n) (AdvanceWindow u) tt r
          = (Returned, tt, r'))
    ∧ yielded r' = yielded r ++ (Resource <$> ys)
    ∧ ys ≡ₚ in_window u (stop_time cfg) rows.
Proof.
  assert (∀ u r, stop_time cfg ≤ u →
            ∃ m r' ys,
              (∀ n, steps (remote_find rows) cfg name (m + n) (AdvanceWindow u) tt r
                    = (Returned, tt, r'))
              ∧ yielded r' = yielded r ++ (Resource <$> ys)
              ∧ ys ≡ₚ in_window u (stop_time cfg) rows) as Hdone.
  { intros u r Hge. exists 1%nat, r, []. split_and!.
    - intros n. rewrite steps_add. cbn [steps step].
      rewrite advance_window_spec, decide_False by lia. by apply steps_finished.
    - by rewrite app_nil_r.
    - by rewrite in_window_empty. }
  induction k as [|k IH]; intros u r Hspan Hsince.
  - apply Hdone. lia.
  - destruct (decide (u < stop_time cfg)) as [Hlt|Hge]; [|apply Hdone; lia].
    set (m1 := Z.min (u + date_window_size cfg) (stop_time cfg)).
    assert (u < m1 ≤ stop_time cfg) as Hm1 by (unfold m1; lia).
    destruct (windowed_pages_drain rows cfg name u m1 page_size_pos
                (length (in_window u m1 rows)) [] (in_window u m1 rows) 1 r)
      as (m & r1 & Hsteps & Hyield).
    + done.
    + done.
    + constructor.
    + apply Forall_forall. intros x [_ Hx]%list_elem_of_filter.
      rewrite Forall_forall in ids_above_1. by apply ids_above_1.
    + by apply StronglySorted_filter_rows.
    + pose proof (steps_window_inv (remote_find rows) cfg name u m
                    (PageWithinWindow u m1 1) tt r Hlt ltac:(simpl; lia)) as Hinv.
      rewrite Hsteps in Hinv. simpl in Hinv.
      destruct Hinv as [?|(_ & _ & Hnone)]; [lia|].
      destruct (IH m1 r1) as (m2 & r2 & ys2 & Hsteps2 & Hyield2 & Hperm2).
      * unfold m1. nia.
      * by rewrite Hnone.
      * exists (1 + (m + m2))%nat, r2, (in_window u m1 rows ++ ys2). split_and!.
        -- intros n. rewrite <- !Nat.add_assoc, steps_add. cbn [steps step].
           rewrite advance_window_spec, decide_True by done. rewrite Hsince.
           fold m1. rewrite steps_add, Hsteps. apply Hsteps2.
        -- rewrite Hyield2, Hyield, fmap_app. by rewrite app_assoc.
        -- rewrite Hperm2. symmetry. apply in_window_split. lia.
Qed.
End WholeCollection.

(** X15. Against a collection kept in ascending id with ids above 1, for a
    positive page size and a positive window size and with no [since_id] to
    resume from, the windowed strategy ends, having gone through all the
    windows from the bookmark to [stop_time], and has yielded every row last
    updated between the bookmark and [stop_time], each of them once. *)
Theorem windowed_run_yields_every_row_once (rows : list row) (cfg : config) (name : string)
    (σ : state) :
  StronglySorted id_lt rows →
  Forall (λ r, 1 < row_id r) rows →
  0 < results_per_page cfg →
  0 < date_window_size cfg →
  or_1 (get_since_id name σ) = 1 →
  ∃ fuel r,
    (∀ n, get_objects (remote_find rows) cfg name (fuel + n) tt σ = (Returned, tt, r))
    ∧ to_dict <$> yielded r ≡ₚ in_window (get_bookmark cfg name σ) (stop_time cfg) rows.
Proof.
  intros Hsorted Hids Hsize Hw Hsince.
  set (b := get_bookmark cfg name σ).
  destruct (windows_drain rows cfg name Hsorted Hids Hsize Hw
              (Z.to_nat ((stop_time cfg - b) / date_window_size cfg + 1)) b (Run σ [] []))
    as (m & r & ys & Hsteps & Hyield & Hperm).
  - destruct (decide (stop_time cfg ≤ b)) as [Hle|Hgt].
    + assert (0 ≤ Z.of_nat (Z.to_nat ((stop_time cfg - b) / date_window_size cfg + 1)))
        by lia. nia.
    + pose proof (Z.mul_succ_div_gt (stop_time cfg - b) (date_window_size cfg) Hw).
      assert (0 ≤ (stop_time cfg - b) / date_window_size cfg)
        by (apply Z.div_pos; lia).
      rewrite Z2Nat.id by lia. lia.
  - done.
  - exists m, r. split; [exact Hsteps|].
    rewrite Hyield. simpl. rewrite <- list_fmap_compose.
    assert ((to_dict ∘ Resource) <$> ys = ys) as ->
      by (rewrite <- (list_fmap_id ys) at 2; by apply list_fmap_ext).
    exact Hperm.
Qed.

Lemma windowed_run_yields_every_row_once_witness :
  let rows := [Row 3 (jan 2 + hour); Row 5 (jan 1 + hour); Row 8 (jan 2 + 2 * hour)] in
  ∃ fuel r,
    (∀ n, get_objects (remote_find rows) (cfg_2023 (Some (jan 3)) 2) "orders"
            (fuel + n) tt ∅ = (Returned, tt, r))
    ∧ to_dict <$> yielded r ≡ₚ rows.
Proof.
  intros rows.
  assert (StronglySorted id_lt rows) as H1
    by (repeat (constructor; [|repeat apply Forall_cons_2; try apply Forall_nil_2;
                               unfold id_lt; simpl; lia]); constructor).
  assert (Forall (λ r, 1 < row_id r) rows) as H2
    by (repeat apply Forall_cons_2; try apply Forall_nil_2; simpl; lia).
  assert (0 < results_per_page (cfg_2023 (Some (jan 3)) 2)) as H3 by (simpl; lia).
  assert (0 < date_window_size (cfg_2023 (Some (jan 3)) 2)) as H4
    by (vm_compute; reflexivity).
  assert (or_1 (get_since_id "orders" (∅ : state)) = 1) as H5 by reflexivity.
  destruct (windowed_run_yields_every_row_once rows (cfg_2023 (Some (jan 3)) 2) "orders" ∅
              H1 H2 H3 H4 H5) as (fuel & r & Hrun & Hperm).
  exists fuel, r. split; [exact Hrun|]. rewrite Hperm. reflexivity.
Defined.

(** ** Resuming and passing through *)

(** X16. A run that stops after a full, ordered page leaves the cursor of
    the window unchanged and the last id of the page as [since_id]. A later
    run, with its own clock and upper bound, starts at the same cursor and
    its first request carries that id. Its window ends at the cursor plus
    the window size or at its own [stop_time], whichever comes first: this
    is where the interrupted window ended when that one spanned a whole
    window size which the new [stop_time] does not cut; when the interrupted
    window was cut by [stop_time] and the new [stop_time] is later, the new
    window ends later than the interrupted one. *)
Theorem interrupted_window_resumes_at_last_id {R R'}
    (call_api : query → R → result (list resource) * R)
    (call_api' : query → R' → result (list resource) * R')
    cfg cfg' name updated_at_min updated_at_max sid rem rem' (rem2 : R') r objects o :
  call_api (Query sid updated_at_min updated_at_max (results_per_page cfg)) rem
    = (Ok objects, rem') →
  Forall (λ x, sid ≤ id x) objects →
  Z.of_nat (length objects) = results_per_page cfg →
  last objects = Some o →
  id o = max_id objects →
  id o ≠ 0 →
  get_bookmark cfg name (ctx_state r) = updated_at_min →
  start_date cfg' = start_date cfg →
  date_window_size cfg' = date_window_size cfg →
  updated_at_min < stop_time cfg' →
  ctx_state (page_within_window call_api cfg name
               updated_at_min updated_at_max sid rem r).2
  = write_bookmark name (since_id_key (id o)) (ctx_state r)
  ∧ get_objects call_api' cfg' name 1 rem2
      (ctx_state (page_within_window call_api cfg name
                    updated_at_min updated_at_max sid rem r).2)
    = (PageWithinWindow updated_at_min
         (Z.min (updated_at_min + date_window_size cfg) (stop_time cfg')) (id o),
       rem2,
       Run (write_bookmark name (since_id_key (id o)) (ctx_state r)) [] [])
  ∧ (updated_at_max = updated_at_min + date_window_size cfg →
     updated_at_max ≤ stop_time cfg' →
     Z.min (updated_at_min + date_window_size cfg) (stop_time cfg') = updated_at_max)
  ∧ (updated_at_max = stop_time cfg →
     stop_time cfg < updated_at_min + date_window_size cfg →
     stop_time cfg < stop_time cfg' →
     updated_at_max < Z.min (updated_at_min + date_window_size cfg) (stop_time cfg')).
Proof.
  intros Hcall Hall Hlen Hlast Hmax Hne Hcur Hstart Hsize Hlt.
  assert (ctx_state (page_within_window call_api cfg name
                       updated_at_min updated_at_max sid rem r).2
          = write_bookmark name (since_id_key (id o)) (ctx_state r)) as Hstate.
  { unfold page_within_window. rewrite Hcall, (check_since_id_ok _ _ Hall).
    unfold after_page. rewrite Hlen, Z.ltb_irrefl, Hlast, Hmax, Z.eqb_refl. done. }
  rewrite Hstate. split_and!; [done| |lia..].
  unfold get_objects. cbn [steps step]. rewrite advance_window_spec.
  unfold get_bookmark in *. rewrite get_bookmark_raw_write_since_id, Hstart, Hcur, Hsize.
  rewrite decide_True by done. simpl ctx_state. rewrite get_since_id_write.
  simpl or_1. by destruct (Z.eqb_spec (id o) 0).
Qed.

Lemma interrupted_window_resumes_at_last_id_witness :
  get_objects find (Config (jan 1) None DATE_WINDOW_SIZE 2 false (jan 25)) "orders" 1
    (Scripted [Ok [obj 9 (jan 1)]] [])
    (ctx_state (page_within_window find (cfg_2023 (Some (jan 3)) 2) "orders"
                  (jan 1) (jan 2) 1
                  (Scripted [Ok [obj 4 (jan 1); obj 6 (jan 1)]] []) (Run ∅ [] [])).2)
  = (PageWithinWindow (jan 1) (Z.min (jan 1 + DATE_WINDOW_SIZE) (jan 25)) 6,
     Scripted [Ok [obj 9 (jan 1)]] [],
     Run {["orders"%string := Bookmarks None (Some 6)]} [] []).
Proof.
  assert (Forall (λ x, 1 ≤ id x) [obj 4 (jan 1); obj 6 (jan 1)]) as H1
    by (repeat apply Forall_cons_2; try apply Forall_nil_2; unfold id; simpl; lia).
  assert (id (obj 6 (jan 1)) = max_id [obj 4 (jan 1); obj 6 (jan 1)]) as H2 by reflexivity.
  assert (id (obj 6 (jan 1)) ≠ 0) as H3 by (unfold id; simpl; lia).
  assert (jan 1 < stop_time (Config (jan 1) None DATE_WINDOW_SIZE 2 false (jan 25))) as H4
    by (vm_compute; reflexivity).
  exact (proj1 (proj2
           (interrupted_window_resumes_at_last_id find find (cfg_2023 (Some (jan 3)) 2)
              (Config (jan 1) None DATE_WINDOW_SIZE 2 false (jan 25)) "orders"
              (jan 1) (jan 2) 1 (Scripted [Ok [obj 4 (jan 1); obj 6 (jan 1)]] []) _
              (Scripted [Ok [obj 9 (jan 1)]] []) (Run ∅ [] []) _ (obj 6 (jan 1))
              eq_refl H1 eq_refl eq_refl H2 H3 eq_refl eq_refl eq_refl H4))).
Defined.

(** X17. An answer that is a success, or an exception of a class neither
    decorator lists (a connection error, a [TypeError]), ends the wrapped
    call at once: one request, nothing slept and nothing logged. *)
Theorem unlisted_outcomes_pass_through {P A} (q : P) (x : result A)
    (rest : list (result A)) reqs log fuel :
  (1 ≤ fuel)%nat →
  match x with
  | Ok _ => True
  | Raise e => is_client_error e = false ∧ is_server_or_decode_error e = false
  end →
  call_api fuel q (Scripted (x :: rest) reqs) log
  = Some (x, Scripted rest (reqs ++ [q]), log).
Proof.
  intros Hfuel Hx. destruct fuel as [|fuel]; [lia|].
  destruct x as [v|e].
  - apply call_api_inner_ok. by apply leaky_bucket_pass.
  - destruct Hx as [Hc Hs]. apply call_api_inner_raise; [|done].
    by apply leaky_bucket_pass.
Qed.

Lemma unlisted_outcomes_pass_through_witness :
  call_api 5 "orders"%string
    (Scripted [Raise (ConnectionError (Some 302)); Ok [obj 1 (jan 1)]] []) []
  = Some (Raise (ConnectionError (Some 302)),
          Scripted [Ok [obj 1 (jan 1)]] ["orders"%string], []).
Proof.
  assert (1 ≤ 5)%nat as H1 by lia.
  assert (is_client_error (ConnectionError (Some 302)) = false
          ∧ is_server_or_decode_error (ConnectionError (Some 302)) = false) as H2
    by (split; reflexivity).
  exact (unlisted_outcomes_pass_through "orders"%string (Raise (ConnectionError (Some 302)))
           [Ok [obj 1 (jan 1)]] [] [] 5 H1 H2).
Defined.

(** ** Retries beyond the interpreter's stack *)

(** X19. When the remote answers a request with more responses that are
    retried than the interpreter allows nested calls, the request ends with
    [RecursionError] after the requests and sleeps of the nested calls that
    fit; when it is the count request, the runner raises that error without
    having sent a page request, and the asynchronous strategy raises it
    with nothing yielded and the state untouched. *)
Theorem async_retries_exhaust_the_stack (recursion_limit : nat) (job : async_params)
    (retried tail : list response) :
  Forall reissued retried →
  (recursion_limit < length retried)%nat →
  _get_async recursion_limit (retried ++ tail) job 0
  = Some (Raise RecursionError,
          retry_log job 0 (take (S recursion_limit) retried))
  ∧ (∀ http as_completed self,
       http (Request true (params self)) = retried ++ tail →
       _runner recursion_limit http as_completed self = Some (Raise RecursionError)
       ∧ dispatched recursion_limit http as_completed self = [])
  ∧ (∀ cfg name http as_completed plan_name σ,
       (∀ ps, http (Request true ps) = retried ++ tail) →
       get_objects_async cfg name recursion_limit http as_completed plan_name σ
       = Some (Raised RecursionError, Run σ [] [])).
Proof.
  intros Hall Hdepth.
  assert (∀ ps, _get_async recursion_limit (retried ++ tail) ps 0
                = Some (Raise RecursionError,
                        retry_log ps 0 (take (S recursion_limit) retried))) as Hget.
  { intros ps. rewrite _get_async_overflow by (done || lia).
    by rewrite Nat.sub_0_r. }
  assert (∀ http as_completed self,
            http (Request true (params self)) = retried ++ tail →
            _runner_traced recursion_limit http as_completed self
            = ([], Some (Raise RecursionError))) as Hrun.
  { intros http as_completed self Hhttp.
    unfold _runner_traced, _request_count. by rewrite Hhttp, Hget. }
  split_and!.
  - apply Hget.
  - intros http as_completed self Hhttp. unfold _runner, dispatched.
    by rewrite Hrun.
  - intros cfg name http as_completed plan_name σ Hhttp.
    unfold get_objects_async, _runner. by rewrite Hrun.
Qed.

Lemma async_retries_exhaust_the_stack_witness :
  let params := AsyncParams (jan 1) (jan 2) 250 None in
  let busy := Response 503 None (Body None None None) in
  _get_async 3 ([busy; busy; busy; busy]
                ++ [Response 200 None (Body (Some 7) None None)]) params 0
  = Some (Raise RecursionError,
          [GET params 0; GET params 1; GET params 2; GET params 3]).
Proof.
  intros params busy.
  assert (reissued busy) as Hb by (right; simpl; lia).
  assert (Forall reissued [busy; busy; busy; busy]) as Hall
    by (repeat apply Forall_cons_2; try done; apply Forall_nil_2).
  assert (3 < length [busy; busy; busy; busy])%nat as Hdepth by (simpl; lia).
  exact (proj1 (async_retries_exhaust_the_stack 3 params [busy; busy; busy; busy]
                  [Response 200 None (Body (Some 7) None None)] Hall Hdepth)).
Defined.
